(** * Shallow embedding of the defi-cli ABI codec, JSON-RPC transport,
      fee computation and position reader.

    Sources: [src/defi_cli/rpc_helpers.py], [src/position_reader.py],
    [src/real_defi_math.py]. *)

From Stdlib Require Import ZArith List String Ascii Bool Lia Sorting.Permutation Sorting.Sorted.
From Stdlib Require Import Reals Lra.
From Stdlib Require Floats.
Import ListNotations.
Open Scope string_scope.
Open Scope Z_scope.

(** ** Python exceptions and fallible results *)

(** The exception classes the modelled code can raise or catch.
    [TransportError] stands for every failure of the HTTP layer
    (connection refused, timeout, a body that is not JSON). *)
Inductive exn : Type :=
| ValueError
| RuntimeError
| KeyError
| TypeError
| AttributeError
| IndexError
| TransportError
| OverflowError
| ZeroDivisionError.

(** A Python expression either returns a value or raises. *)
Inductive res (A : Type) : Type :=
| Ok (a : A)
| Err (e : exn).
Arguments Ok {A} a.
Arguments Err {A} e.

Definition res_bind {A B} (r : res A) (f : A -> res B) : res B :=
  match r with
  | Ok a => f a
  | Err e => Err e
  end.

Notation "x <-? r ;; k" := (res_bind r (fun x => k))
  (at level 61, r at next level, right associativity).

(** ** Python string helpers *)

(** [s[a:b]] for [0 <= a]: Python clamps both bounds to the string. *)
Definition py_slice (s : string) (a b : nat) : string :=
  substring a (b - a) s.

(** [s[2:]] *)
Definition drop2 (s : string) : string :=
  substring 2 (String.length s - 2) s.

Fixpoint zeros (n : nat) : string :=
  match n with
  | O => ""
  | S k => String "0" (zeros k)
  end.

(** ** Hexadecimal formatting: [format(v, '064x')] *)

Definition hex_char (d : Z) : ascii :=
  match d with
  | 0 => "0" | 1 => "1" | 2 => "2" | 3 => "3" | 4 => "4" | 5 => "5"
  | 6 => "6" | 7 => "7" | 8 => "8" | 9 => "9" | 10 => "a" | 11 => "b"
  | 12 => "c" | 13 => "d" | 14 => "e" | _ => "f"
  end%char.

(** Digits of [n > 0] in base 16, most significant first, prepended to
    [acc]; [fuel] bounds the number of digits. *)
Fixpoint hex_digits (fuel : nat) (n : Z) (acc : string) : string :=
  match fuel with
  | O => acc
  | S f =>
      let acc' := String (hex_char (n mod 16)) acc in
      if n / 16 =? 0 then acc' else hex_digits f (n / 16) acc'
  end.

(** [format(n, 'x')] for [n >= 0]: lowercase, no prefix, ["0"] for zero. *)
Definition to_hex (n : Z) : string :=
  if n =? 0 then "0" else hex_digits (Z.to_nat (Z.log2 n) + 1) n "".

(** [format(v, '0<w>x')]: zero padding to width [w], sign-aware for
    negative values (the sign comes first and counts in the width). *)
Definition format_hex0 (w : nat) (v : Z) : string :=
  if v <? 0 then
    let h := to_hex (- v) in "-" ++ zeros (w - 1 - String.length h) ++ h
  else
    let h := to_hex v in zeros (w - String.length h) ++ h.

(** ** Python's [int(s, 16)] *)

Definition hex_val (c : ascii) : option Z :=
  let n := Z.of_nat (nat_of_ascii c) in
  if (48 <=? n) && (n <=? 57) then Some (n - 48)
  else if (97 <=? n) && (n <=? 102) then Some (n - 87)
  else if (65 <=? n) && (n <=? 70) then Some (n - 55)
  else None.

(** ASCII characters that [str.strip] and [int()] treat as white space. *)
Definition py_space (c : ascii) : bool :=
  let n := nat_of_ascii c in
  ((9 <=? n) && (n <=? 13))%nat || ((28 <=? n) && (n <=? 32))%nat.

Fixpoint strip_left (l : list ascii) : list ascii :=
  match l with
  | c :: r => if py_space c then strip_left r else l
  | [] => []
  end.

Definition py_strip (l : list ascii) : list ascii :=
  rev (strip_left (rev (strip_left l))).

(** Digits after the first one: each may be preceded by a single
    underscore (PEP 515). *)
Fixpoint hex_rest (l : list ascii) (acc : Z) : option Z :=
  match l with
  | [] => Some acc
  | c :: r =>
      if Ascii.eqb c "_" then
        match r with
        | d :: r' =>
            match hex_val d with
            | Some v => hex_rest r' (acc * 16 + v)
            | None => None
            end
        | [] => None
        end
      else
        match hex_val c with
        | Some v => hex_rest r (acc * 16 + v)
        | None => None
        end
  end.

Definition hex_body (l : list ascii) : option Z :=
  match l with
  | c :: r =>
      match hex_val c with
      | Some v => hex_rest r v
      | None => None
      end
  | [] => None
  end.

(** After a [0x] prefix one underscore may come before the first digit. *)
Definition hex_unsigned (l : list ascii) : option Z :=
  match l with
  | z :: x :: r =>
      if Ascii.eqb z "0" && (Ascii.eqb x "x" || Ascii.eqb x "X") then
        match r with
        | u :: r' => if Ascii.eqb u "_" then hex_body r' else hex_body r
        | [] => None
        end
      else hex_body l
  | _ => hex_body l
  end.

Definition hex_signed (l : list ascii) : option Z :=
  match l with
  | c :: r =>
      if Ascii.eqb c "-" then option_map Z.opp (hex_unsigned r)
      else if Ascii.eqb c "+" then hex_unsigned r
      else hex_unsigned l
  | [] => None
  end.

(** [int(s, 16)]: raises [ValueError] on anything that is not a literal. *)
Definition int16 (s : string) : res Z :=
  match hex_signed (py_strip (list_ascii_of_string s)) with
  | Some v => Ok v
  | None => Err ValueError
  end.

(** ** ABI codec ([rpc_helpers.py]) *)

Definition ABI_WORD_HEX : nat := 64.
Definition ADDRESS_PAD_HEX : nat := 24.
Definition Q128 : Z := 2 ^ 128.
Definition Q256 : Z := 2 ^ 256.
Definition SIGN_BIT : Z := 2 ^ 255.

Definition encode_uint256 (value : Z) : string := format_hex0 ABI_WORD_HEX value.

Definition encode_uint24 (val : Z) : string := format_hex0 ABI_WORD_HEX val.

Definition encode_int24 (value : Z) : string :=
  let value := if value <? 0 then Q256 + value else value in
  format_hex0 ABI_WORD_HEX value.

Definition decode_uint (hex_data : string) (slot : nat) : res Z :=
  let start := (slot * ABI_WORD_HEX)%nat in
  int16 (py_slice hex_data start (start + ABI_WORD_HEX)).

Definition decode_int (hex_data : string) (slot : nat) : res Z :=
  val <-? decode_uint hex_data slot ;;
  if val >=? SIGN_BIT then Ok (val - Q256) else Ok val.

Definition decode_address (hex_data : string) (slot : nat) : string :=
  let start := (slot * ABI_WORD_HEX)%nat in
  "0x" ++ py_slice hex_data (start + ADDRESS_PAD_HEX) (start + ABI_WORD_HEX).

(** Base-16 value of a list of digits, most significant first (used to
    state what [int16] computes on digit strings). *)
Definition hex_step (acc : Z) (c : ascii) : Z :=
  acc * 16 + match hex_val c with Some v => v | None => 0 end.

Definition is_digit (c : ascii) : Prop := hex_val c <> None.

(** ** JSON-RPC transport ([rpc_helpers.py]) *)

(** One JSON-RPC request object: [{"jsonrpc": "2.0", "id": .., "method":
    "eth_call", "params": [{"to": .., "data": ..}, "latest"]}]. *)
Record payload : Type := mkPayload {
  p_id : Z;
  p_to : string;
  p_data : string
}.

(** What one HTTP POST sends: a single [eth_call], a JSON array of them,
    or an [eth_blockNumber] query. *)
Inductive request : Type :=
| ReqCall (p : payload)
| ReqBatch (ps : list payload)
| ReqBlockNumber.

(** A JSON-RPC response object, by the keys the code reads:
    ["id"], ["result"] and ["error"] ([None] when the key is absent). *)
Record robj : Type := mkRobj {
  r_id : option Z;
  r_result : option string;
  r_error : option string
}.

(** [resp.json()]: an object or an array of objects. *)
Inductive reply : Type :=
| RObj (o : robj)
| RArr (l : list robj).

(** The node: its answer to one POST, or a transport-level failure
    ([Err TransportError]: unreachable host, timeout, body not JSON). *)
Definition node := request -> res reply.

(** Effectful code: the POSTs issued, in order, and the outcome. *)
Definition M (A : Type) : Type := (list request * res A)%type.

Definition ret {A} (a : A) : M A := ([], Ok a).
Definition raise {A} (e : exn) : M A := ([], Err e).
Definition lift {A} (r : res A) : M A := ([], r).

Definition bindM {A B} (m : M A) (f : A -> M B) : M B :=
  let '(t, r) := m in
  match r with
  | Ok a => let '(t', r') := f a in ((t ++ t')%list, r')
  | Err e => (t, Err e)
  end.

(** [try: m except Exception: h] *)
Definition try_except {A} (m : M A) (h : exn -> M A) : M A :=
  let '(t, r) := m in
  match r with
  | Ok a => (t, Ok a)
  | Err e => let '(t', r') := h e in ((t ++ t')%list, r')
  end.

Notation "x <- m ;; k" := (bindM m (fun x => k))
  (at level 61, m at next level, right associativity).

Definition post (nd : node) (q : request) : M reply := ([q], nd q).

Definition default_str (d : string) (o : option string) : string :=
  match o with Some s => s | None => d end.

(** Sort key [r.get("id", 0)]. *)
Definition id_key (r : robj) : Z :=
  match r_id r with Some k => k | None => 0 end.

(** [list.sort(key=...)] is stable; a stable sort is determined by its
    key, and insertion sort is one. *)
Fixpoint insert_by_id (x : robj) (l : list robj) : list robj :=
  match l with
  | [] => [x]
  | y :: r => if id_key x <=? id_key y then x :: l else y :: insert_by_id x r
  end.

Fixpoint sort_by_id (l : list robj) : list robj :=
  match l with
  | [] => []
  | x :: r => insert_by_id x (sort_by_id r)
  end.

Section Transport.
Variable nd : node.

Definition eth_call (to data : string) : M string :=
  result <- post nd (ReqCall (mkPayload 1 to data)) ;;
  match result with
  | RObj o =>
      match r_error o with
      | Some _ => raise RuntimeError
      | None =>
          let raw := default_str "0x" (r_result o) in
          if String.eqb raw "0x" || (String.length raw <? 4)%nat
          then raise RuntimeError
          else ret (drop2 raw)
      end
  (* ["error" in result] is [False] on a list; [result.get] then fails *)
  | RArr _ => raise AttributeError
  end.

(** [for i, (to, data) in enumerate(calls)]: ids [i + 1]. *)
Fixpoint mk_payloads (i : Z) (calls : list (string * string)) : list payload :=
  match calls with
  | [] => []
  | (to, data) :: rest => mkPayload (i + 1) to data :: mk_payloads (i + 1) rest
  end.

(** [r.get("result", "0x")[2:] if "result" in r else ""] *)
Definition batch_entry (r : robj) : string :=
  match r_result r with Some s => drop2 s | None => "" end.

Definition eth_call_batch (calls : list (string * string)) : M (list string) :=
  let payloads := mk_payloads 0 calls in
  results <- post nd (ReqBatch payloads) ;;
  match results with
  | RArr l => ret (map batch_entry (sort_by_id l))
  | RObj o => ret [drop2 (default_str "0x" (r_result o))]
  end.

Definition eth_block_number : M Z :=
  result <- post nd ReqBlockNumber ;;
  match result with
  | RObj o =>
      match r_error o with
      | Some _ => raise RuntimeError
      | None =>
          match r_result o with
          | Some s => lift (int16 s)
          | None => raise KeyError
          end
      end
  (* [result["result"]] on a list *)
  | RArr _ => raise TypeError
  end.

(** [PositionReader._get_block_number]. *)
Definition get_block_number : M Z :=
  try_except eth_block_number (fun _ => ret 0).

(** The fallback [read_position] runs when a batch raises: each call
    alone, [""] for each call that raises. *)
Fixpoint sequential_calls (calls : list (string * string)) : M (list string) :=
  match calls with
  | [] => ret []
  | (to, data) :: rest =>
      r <- try_except (eth_call to data) (fun _ => ret "") ;;
      rs <- sequential_calls rest ;;
      ret (r :: rs)
  end.

(** [try: eth_call_batch(calls) except Exception: <sequential fallback>]
    as written in [read_position]. *)
Definition batch_with_fallback (calls : list (string * string)) : M (list string) :=
  try_except (eth_call_batch calls) (fun _ => sequential_calls calls).

End Transport.

(** ** Uncollected fees ([PositionReader._compute_fees]) *)

(** The dict returned by [_read_position_nft]. *)
Record position : Type := mkPosition {
  nonce : Z;
  operator : string;
  token0 : string;
  token1 : string;
  fee : Z;
  tickLower : Z;
  tickUpper : Z;
  liquidity : Z;
  feeGrowthInside0LastX128 : Z;
  feeGrowthInside1LastX128 : Z;
  tokensOwed0 : Z;
  tokensOwed1 : Z
}.

(** [raw / (10 ** decimals)]: the integer before scaling and the decimals
    it is scaled by. The float value of the quotient is not modelled; whether
    the division raises is ([scale_int]). *)
Record scaled : Type := mkScaled {
  raw : Z;
  decimals : Z
}.

(** The least int whose conversion to a float overflows
    ([OverflowError: int too large to convert to float]); it rounds to
    [2 ^ 1024]. *)
Definition FLOAT_INT_OVERFLOW : Z := 2 ^ 1024 - 2 ^ 970.

(** [raw / (10 ** d)] for an int [raw]. For [d >= 0], [10 ** d] is an int
    and the true division [int / int] is correctly rounded: it raises
    [OverflowError] ("integer division result too large for a float")
    exactly when the quotient is at least [FLOAT_INT_OVERFLOW], i.e. from
    [|raw| >= FLOAT_INT_OVERFLOW * 10 ^ d] on. For [d < 0], [10 ** d] is a
    float: [raw] is converted to a float first ([OverflowError] from
    [|raw| >= FLOAT_INT_OVERFLOW] on), then divided by [10 ** d], which is
    [0.0] from [d = -324] on ([ZeroDivisionError]); a float quotient that
    overflows is [inf], not an exception. Python builds [10 ** d] in
    memory; running out of memory for an astronomically large [d] is not
    modelled. *)
Definition scale_int (raw d : Z) : res scaled :=
  if 0 <=? d then
    if FLOAT_INT_OVERFLOW * 10 ^ d <=? Z.abs raw then Err OverflowError
    else Ok (mkScaled raw d)
  else if FLOAT_INT_OVERFLOW <=? Z.abs raw then Err OverflowError
  else if d <=? -324 then Err ZeroDivisionError
  else Ok (mkScaled raw d).

Record fee_amounts : Type := mkFees {
  fees0 : scaled;
  fees1 : scaled
}.

(** Steps 1 to 3 of [_compute_fees] for one token (the code runs them for
    token 0 and token 1 side by side). *)
Definition fee_growth_inside (current_tick tick_lower tick_upper
                              fg_global fg_outside_lower fg_outside_upper : Z) : Z :=
  let fg_below :=
    if current_tick >=? tick_lower then fg_outside_lower
    else (fg_global - fg_outside_lower) mod Q256 in
  let fg_above :=
    if current_tick <? tick_upper then fg_outside_upper
    else (fg_global - fg_outside_upper) mod Q256 in
  (fg_global - fg_below - fg_above) mod Q256.

(** Step 4 and the [tokensOwed] addition, once the boundary values are
    decoded: the raw amounts before the division by [10 ** decimals]. *)
Definition fees_from_outside (pos : position) (current_tick fg0_global fg1_global
                              fg0_outside_lower fg1_outside_lower
                              fg0_outside_upper fg1_outside_upper
                              decimals0 decimals1 : Z) : fee_amounts :=
  let fg0_inside := fee_growth_inside current_tick (tickLower pos) (tickUpper pos)
                      fg0_global fg0_outside_lower fg0_outside_upper in
  let fg1_inside := fee_growth_inside current_tick (tickLower pos) (tickUpper pos)
                      fg1_global fg1_outside_lower fg1_outside_upper in
  let liq := liquidity pos in
  let fees0_raw := (liq * ((fg0_inside - feeGrowthInside0LastX128 pos) mod Q256)) / Q128 in
  let fees1_raw := (liq * ((fg1_inside - feeGrowthInside1LastX128 pos) mod Q256)) / Q128 in
  mkFees (mkScaled (fees0_raw + tokensOwed0 pos) decimals0)
         (mkScaled (fees1_raw + tokensOwed1 pos) decimals1).

(** The body of the [try] block. *)
Definition compute_fees_body (pos : position) (current_tick fg0_global fg1_global : Z)
    (tick_lower_data tick_upper_data : string) (decimals0 decimals1 : Z) : res fee_amounts :=
  if String.eqb tick_lower_data "" || String.eqb tick_upper_data "" then Err ValueError
  else
    fg0_outside_lower <-? decode_uint tick_lower_data 2 ;;
    fg1_outside_lower <-? decode_uint tick_lower_data 3 ;;
    fg0_outside_upper <-? decode_uint tick_upper_data 2 ;;
    fg1_outside_upper <-? decode_uint tick_upper_data 3 ;;
    let f := fees_from_outside pos current_tick fg0_global fg1_global
               fg0_outside_lower fg1_outside_lower fg0_outside_upper fg1_outside_upper
               decimals0 decimals1 in
    (* the returned dict: ["fees0"] is computed before ["fees1"] *)
    f0 <-? scale_int (raw (fees0 f)) decimals0 ;;
    f1 <-? scale_int (raw (fees1 f)) decimals1 ;;
    Ok (mkFees f0 f1).

(** The [except Exception] branch; its own divisions are not guarded. *)
Definition fees_fallback (pos : position) (decimals0 decimals1 : Z) : res fee_amounts :=
  f0 <-? scale_int (tokensOwed0 pos) decimals0 ;;
  f1 <-? scale_int (tokensOwed1 pos) decimals1 ;;
  Ok (mkFees f0 f1).

Definition compute_fees (pos : position) (current_tick fg0_global fg1_global : Z)
    (tick_lower_data tick_upper_data : string) (decimals0 decimals1 : Z) : res fee_amounts :=
  match compute_fees_body pos current_tick fg0_global fg1_global
          tick_lower_data tick_upper_data decimals0 decimals1 with
  | Ok f => Ok f
  | Err _ => fees_fallback pos decimals0 decimals1
  end.





(** ** Position reader ([PositionReader.read_position]) *)

Definition SEL_positions : string := "0x99fbab88".
Definition SEL_slot0 : string := "0x3850c7bd".
Definition SEL_liquidity : string := "0x1a686502".
Definition SEL_feeGrowthGlobal0X128 : string := "0xf3058399".
Definition SEL_feeGrowthGlobal1X128 : string := "0x46141319".
Definition SEL_ticks : string := "0xf30dba93".
Definition SEL_getPool : string := "0x1698ee82".
Definition SEL_symbol : string := "0x95d89b41".
Definition SEL_decimals : string := "0x313ce567".

(** [str.lower()] on ASCII. *)
Definition py_lower_char (c : ascii) : ascii :=
  let n := nat_of_ascii c in
  if ((65 <=? n) && (n <=? 90))%nat then ascii_of_nat (n + 32) else c.

(** [s.replace("0x", "")]: left to right, non-overlapping. *)
Fixpoint remove_0x (l : list ascii) : list ascii :=
  match l with
  | z :: ((x :: r) as l') =>
      if Ascii.eqb z "0" && Ascii.eqb x "x" then remove_0x r
      else z :: remove_0x l'
  | _ => l
  end.

(** [s.zfill(w)]: zeros after a leading sign, before anything else. *)
Definition zfill (w : nat) (s : string) : string :=
  let n := String.length s in
  if (w <=? n)%nat then s
  else match s with
       | String c r =>
           if Ascii.eqb c "+" || Ascii.eqb c "-" then String c (zeros (w - n) ++ r)
           else zeros (w - n) ++ s
       | EmptyString => zeros w
       end.

Definition encode_address (addr : string) : string :=
  zfill ABI_WORD_HEX
    (string_of_list_ascii (remove_0x (map py_lower_char (list_ascii_of_string addr)))).

(** [xs[i]] on a list. *)
Definition py_index (l : list string) (i : nat) : res string :=
  match nth_error l i with Some x => Ok x | None => Err IndexError end.

(** [f(data) if data else default] *)
Definition decode_or (data : string) (default : Z) (f : string -> res Z) : res Z :=
  if String.eqb data "" then Ok default else f data.

(** [if pool_address] *)
Definition py_truthy (o : option string) : bool :=
  match o with Some s => negb (String.eqb s "") | None => false end.

Record reader : Type := mkReader {
  position_manager : string;
  factory : string
}.

(** The integer, string and boolean fields of the returned dict. The
    float-valued fields (prices, token amounts, USD values, percentages,
    position share), the token symbols and the console output are not
    modelled. *)
Record snapshot : Type := mkSnapshot {
  position_id : Z;
  pool_address : string;
  token0_address : string;
  token1_address : string;
  token0_decimals : Z;
  token1_decimals : Z;
  fee_raw : Z;
  liquidity_raw : Z;
  snap_tickLower : Z;
  snap_tickUpper : Z;
  in_range : bool;
  uncollected : fee_amounts;
  pool_liquidity : Z;
  sqrtPriceX96 : Z;
  pool_tick : Z;
  block_number : Z
}.

Section Reader.
Variable nd : node.
Variable rd : reader.

Definition read_position_nft (token_id : Z) : M position :=
  result <- eth_call nd (position_manager rd) (SEL_positions ++ encode_uint256 token_id) ;;
  lift (
    n <-? decode_uint result 0 ;;
    let op := decode_address result 1 in
    let t0 := decode_address result 2 in
    let t1 := decode_address result 3 in
    f <-? decode_uint result 4 ;;
    tl <-? decode_int result 5 ;;
    tu <-? decode_int result 6 ;;
    liq <-? decode_uint result 7 ;;
    g0 <-? decode_uint result 8 ;;
    g1 <-? decode_uint result 9 ;;
    o0 <-? decode_uint result 10 ;;
    o1 <-? decode_uint result 11 ;;
    Ok (mkPosition n op t0 t1 f tl tu liq g0 g1 o0 o1)).

Definition resolve_pool_address (t0 t1 : string) (f : Z) : M string :=
  result <- eth_call nd (factory rd)
              (SEL_getPool ++ encode_address t0 ++ encode_address t1 ++ encode_uint24 f) ;;
  let pool := decode_address result 0 in
  if String.eqb pool ("0x" ++ zeros 40) then raise RuntimeError else ret pool.

Definition read_position (pid : Z) (pool_addr : option string) : M snapshot :=
  (* Step 0: validate inputs *)
  if pid <? 0 then raise ValueError else
  if py_truthy pool_addr &&
     (negb (String.prefix "0x" (default_str "" pool_addr)) ||
      negb (String.length (default_str "" pool_addr) =? 42)%nat)
  then raise ValueError else
  block_number <- get_block_number nd ;;
  pos <- read_position_nft pid ;;
  pool <- (if py_truthy pool_addr then ret (default_str "" pool_addr)
           else resolve_pool_address (token0 pos) (token1 pos) (fee pos)) ;;
  (* Step 2: one batch for pool state and token metadata *)
  let batch_calls :=
    [(pool, SEL_slot0); (pool, SEL_liquidity);
     (pool, SEL_feeGrowthGlobal0X128); (pool, SEL_feeGrowthGlobal1X128);
     (token0 pos, SEL_decimals); (token1 pos, SEL_decimals);
     (token0 pos, SEL_symbol); (token1 pos, SEL_symbol)] in
  batch_results <- batch_with_fallback nd batch_calls ;;
  slot0_data <- lift (py_index batch_results 0) ;;
  pool_liq_data <- lift (py_index batch_results 1) ;;
  fg0_global_data <- lift (py_index batch_results 2) ;;
  fg1_global_data <- lift (py_index batch_results 3) ;;
  dec0_data <- lift (py_index batch_results 4) ;;
  dec1_data <- lift (py_index batch_results 5) ;;
  _ <- lift (py_index batch_results 6) ;;
  _ <- lift (py_index batch_results 7) ;;
  sqrtP <- lift (decode_or slot0_data 0 (fun d => decode_uint d 0)) ;;
  current_tick <- lift (decode_or slot0_data 0 (fun d => decode_int d 1)) ;;
  pool_liq <- lift (decode_or pool_liq_data 0 (fun d => decode_uint d 0)) ;;
  decimals0 <- lift (decode_or dec0_data 18 (fun d => decode_uint d 0)) ;;
  decimals1 <- lift (decode_or dec1_data 6 (fun d => decode_uint d 0)) ;;
  (* symbols: [_decode_string] and [_normalize_symbol] catch every error *)
  fg0_global <- lift (decode_or fg0_global_data 0 (fun d => decode_uint d 0)) ;;
  fg1_global <- lift (decode_or fg1_global_data 0 (fun d => decode_uint d 0)) ;;
  (* Step 3: tick boundaries, batch then one by one *)
  let tick_lower_call := SEL_ticks ++ encode_int24 (tickLower pos) in
  let tick_upper_call := SEL_ticks ++ encode_int24 (tickUpper pos) in
  tick_batch <- batch_with_fallback nd [(pool, tick_lower_call); (pool, tick_upper_call)] ;;
  tick_lower_data <- lift (py_index tick_batch 0) ;;
  tick_upper_data <- lift (py_index tick_batch 1) ;;
  (* Step 4, [_compute_token_amounts], is not modelled here (see
     [DefiMath.compute_token_amounts]); nor are steps 6 and 7, the prices
     and USD values. They only add ways to raise ([OverflowError] for
     [decimals >= 309] with nonzero liquidity, for instance). *)
  (* Step 5 *)
  fees <- lift (compute_fees pos current_tick fg0_global fg1_global
                  tick_lower_data tick_upper_data decimals0 decimals1) ;;
  let in_rng := (tickLower pos <=? current_tick) && (current_tick <? tickUpper pos) in
  ret (mkSnapshot pid pool (token0 pos) (token1 pos) decimals0 decimals1 (fee pos)
         (liquidity pos) (tickLower pos) (tickUpper pos) in_rng fees
         pool_liq sqrtP current_tick block_number).

End Reader.

(** ** Concrete fee inputs *)

(** A [ticks()] reply: liquidityGross, liquidityNet, feeGrowthOutside0X128,
    feeGrowthOutside1X128. *)
Definition tick_words (gross net out0 out1 : Z) : string :=
  encode_uint256 gross ++ encode_int24 net ++ encode_uint256 out0 ++ encode_uint256 out1.

Definition demo_position : position :=
  mkPosition 0 ("0x" ++ zeros 40) "0xaaaa" "0xbbbb" 500 (-10) 10
    (10 ^ 18) 0 0 3 4.



(** ** Concrete nodes used to exercise the transport *)

Definition demo_calls : list (string * string) := [("0xA", "0xD1"); ("0xB", "0xD2")].

Definition word_hex (d : string) : string := zeros 63 ++ d.

(** Answers a batch out of order, as in [TestEthCallBatchMocked]. *)
Definition swapped_batch_node : node := fun q =>
  match q with
  | ReqBatch _ =>
      Ok (RArr [mkRobj (Some 2) (Some ("0x" ++ word_hex "2")) None;
                mkRobj (Some 1) (Some ("0x" ++ word_hex "1")) None])
  | _ => Err TransportError
  end.

(** Fails every batched POST at the transport level, answers single calls. *)
Definition batch_refusing_node : node := fun q =>
  match q with
  | ReqBatch _ => Err TransportError
  | ReqCall _ => Ok (RObj (mkRobj (Some 1) (Some ("0x" ++ word_hex "7")) None))
  | ReqBlockNumber => Ok (RObj (mkRobj (Some 1) (Some "0x10") None))
  end.

Definition unreachable_node : node := fun _ => Err TransportError.

Definition error_reply_node : node := fun _ =>
  Ok (RObj (mkRobj (Some 1) None (Some "execution reverted"))).

(** ** A concrete node for the position reader *)

Definition demo_reader : reader :=
  mkReader "0xC36442b4a4522E871399CD717aBDD847Ab11FE88"
           "0x1F98431c8aD98523631AE4a59f267346ea31F984".

Definition demo_pool : string := "0x88e6a0c2ddd26feeb64f039a2c41296fcb3f5640".
Definition demo_token0 : string := "0x82af49447d8a07e3bd95bd0d56f35241523fbab1".
Definition demo_token1 : string := "0xfd086bc7cd5c481dcc9c85ebe478a1c0b69fcbb9".

(** [positions()] words of a closed position: liquidity 0, ticks
    [-10, 10), tokensOwed 3 and 4. *)
Definition demo_position_words : string :=
  encode_uint256 0 ++ encode_address ("0x" ++ zeros 40) ++
  encode_address demo_token0 ++ encode_address demo_token1 ++
  encode_uint24 500 ++ encode_int24 (-10) ++ encode_int24 10 ++
  encode_uint256 0 ++ encode_uint256 0 ++ encode_uint256 0 ++
  encode_uint256 3 ++ encode_uint256 4.

(** Replies by selector; the factory knows no pool (zero address) and the
    pool sits at tick 0. *)
Definition demo_answer (data : string) : string :=
  if String.prefix SEL_positions data then "0x" ++ demo_position_words
  else if String.prefix SEL_getPool data then "0x" ++ encode_uint256 0
  else if String.prefix SEL_slot0 data then "0x" ++ encode_uint256 (2 ^ 96) ++ encode_int24 0
  else if String.prefix SEL_liquidity data then "0x" ++ encode_uint256 (10 ^ 20)
  else if String.prefix SEL_feeGrowthGlobal0X128 data then "0x" ++ encode_uint256 1000
  else if String.prefix SEL_feeGrowthGlobal1X128 data then "0x" ++ encode_uint256 2000
  else if String.prefix SEL_decimals data then "0x" ++ encode_uint256 18
  else if String.prefix SEL_ticks data then "0x" ++ tick_words 1 0 0 0
  else "0x" ++ encode_uint256 0.

Definition demo_node : node := fun q =>
  match q with
  | ReqBlockNumber => Ok (RObj (mkRobj (Some 1) (Some "0x10") None))
  | ReqCall p => Ok (RObj (mkRobj (Some 1) (Some (demo_answer (p_data p))) None))
  | ReqBatch ps =>
      Ok (RArr (map (fun p => mkRobj (Some (p_id p)) (Some (demo_answer (p_data p))) None) ps))
  end.

(** ** ABI return data *)

(** Concatenation of ABI words, as a contract lays out a static tuple. *)
Fixpoint cat (ws : list string) : string :=
  match ws with
  | [] => ""
  | w :: r => w ++ cat r
  end.

(** An address as [_decode_address] returns it: ["0x"] and 40 lowercase
    hexadecimal digits. *)
Definition abi_address (a : string) : Prop :=
  exists h, a = "0x" ++ string_of_list_ascii h /\ List.length h = 40%nat /\
            Forall is_digit h /\ map py_lower_char h = h.

(** The return data of [positions(uint256)] for a position, encoded with
    the module's own encoders (one word per field). *)
Definition position_words (p : position) : string :=
  cat [encode_uint256 (nonce p); encode_address (operator p);
       encode_address (token0 p); encode_address (token1 p);
       encode_uint24 (fee p); encode_int24 (tickLower p); encode_int24 (tickUpper p);
       encode_uint256 (liquidity p);
       encode_uint256 (feeGrowthInside0LastX128 p); encode_uint256 (feeGrowthInside1LastX128 p);
       encode_uint256 (tokensOwed0 p); encode_uint256 (tokensOwed1 p)].

(** A position whose fields fit their ABI types. *)
Definition abi_position (p : position) : Prop :=
  Forall (fun v => 0 <= v < Q256)
    [nonce p; fee p; liquidity p; feeGrowthInside0LastX128 p;
     feeGrowthInside1LastX128 p; tokensOwed0 p; tokensOwed1 p] /\
  Forall (fun t => - SIGN_BIT <= t < SIGN_BIT) [tickLower p; tickUpper p] /\
  abi_address (operator p) /\ abi_address (token0 p) /\ abi_address (token1 p).

(** Number of results an [eth_call_batch] reply yields: one for a single
    object, one per element for an array. *)
Definition reply_count (r : reply) : nat :=
  match r with
  | RObj _ => 1
  | RArr l => List.length l
  end.

(** A node without batch support: it answers every batch with one
    JSON-RPC error object, and single calls like [demo_node]. *)
Definition no_batch_node : node := fun q =>
  match q with
  | ReqBatch _ => Ok (RObj (mkRobj None None (Some "batch requests are not supported")))
  | _ => demo_node q
  end.

(** A position whose fields span the ABI ranges (ticks at the protocol's
    extreme usable values). *)
Definition demo_abi_position : position :=
  mkPosition 0 ("0x" ++ zeros 40) demo_token0 demo_token1 500 (-887220) 887220 (10 ^ 18)
    (2 ^ 200) 7 3 4.

(** Whether a request asks the factory for a pool ([getPool] calldata),
    alone or inside a batch. *)
Definition get_pool_call (q : request) : bool :=
  match q with
  | ReqCall p => String.prefix SEL_getPool (p_data p)
  | ReqBatch ps => existsb (fun p => String.prefix SEL_getPool (p_data p)) ps
  | ReqBlockNumber => false
  end.

(** ** Auxiliary notions used by the proofs *)

(** Orders on replies by their sort key [r.get("id", 0)]. *)
Definition key_le (x y : robj) : Prop := id_key x <= id_key y.
Definition key_lt (x y : robj) : Prop := id_key x < id_key y.

(** What one sequential [eth_call] yields for a call ([""] when it raises)
    and the request it sends. *)
Definition single_result (nd : node) (c : string * string) : string :=
  match snd (eth_call nd (fst c) (snd c)) with Ok s => s | Err _ => "" end.

Definition single_request (c : string * string) : request :=
  ReqCall (mkPayload 1 (fst c) (snd c)).

(** ** Capital efficiency ([real_defi_math.py]) *)

(** [capital_efficiency_vs_v2], with Python floats read as real numbers
    ([math.sqrt] as [sqrt]); [CapitalEfficiencyFloat] below keeps the
    binary64 operations for concrete evaluation. *)
Module CapitalEfficiency.
Local Open Scope R_scope.

Definition capital_efficiency_vs_v2 (price_lower price_upper : R) : R :=
  if Rle_dec price_upper price_lower then 1 else
  if Rle_dec price_lower 0 then 1 else
  let ratio := sqrt (price_lower / price_upper) in
  let denom := 1 - ratio in
  if Rlt_dec 0 denom then 1 / denom else 1.

End CapitalEfficiency.

(** The same function on binary64 floats (Python's [float]). *)
Module CapitalEfficiencyFloat.
Import Floats.PrimFloat.
Local Open Scope float_scope.

Definition capital_efficiency_vs_v2 (price_lower price_upper : float) : float :=
  if ((price_upper <=? price_lower) || (price_lower <=? 0))%bool then 1 else
  let ratio := PrimFloat.sqrt (price_lower / price_upper) in
  let denom := 1 - ratio in
  if 0 <? denom then 1 / denom else 1.

End CapitalEfficiencyFloat.

(** ** Uniswap V3 and risk maths ([real_defi_math.py]) and the float
    helpers of [PositionReader] *)

(** Python floats are read as real numbers, as for
    [capital_efficiency_vs_v2]: [math.sqrt], [math.log] and [/] raise where
    Python raises; binary64 rounding is not modelled. *)
Module DefiMath.
Local Open Scope R_scope.

Inductive math_exn : Type := ValueError | ZeroDivisionError | OverflowError.

Inductive fres (A : Type) : Type :=
| FOk : A -> fres A
| FErr : math_exn -> fres A.
Arguments FOk {A} _.
Arguments FErr {A} _.

Definition fbind {A B : Type} (r : fres A) (k : A -> fres B) : fres B :=
  match r with FOk a => k a | FErr e => FErr e end.

Notation "x <-! r ;; k" := (fbind r (fun x => k))
  (at level 61, r at next level, right associativity).

Definition Rleb (x y : R) : bool := if Rle_dec x y then true else false.

(** [math.sqrt(x)]: [ValueError: math domain error] below 0. *)
Definition py_sqrt (x : R) : fres R :=
  if Rlt_dec x 0 then FErr ValueError else FOk (sqrt x).

(** [math.log(x)]: [ValueError: math domain error] at and below 0. *)
Definition py_log (x : R) : fres R :=
  if Rle_dec x 0 then FErr ValueError else FOk (ln x).

(** [a / b] *)
Definition py_div (a b : R) : fres R :=
  if Req_EM_T b 0 then FErr ZeroDivisionError else FOk (a / b).

(** [math.floor(x)]: the greatest integer below or at [x]. *)
Definition py_floor (x : R) : Z := Int_part x.

(** Rounding to the nearest integer, ties to the even one. *)
Definition round_half_even (y : R) : Z :=
  let f := Int_part y in
  let d := y - IZR f in
  if Rlt_dec d (1 / 2) then f
  else if Rlt_dec (1 / 2) d then (f + 1)%Z
  else if Z.even f then f else (f + 1)%Z.

(** [round(x, n)] for [n >= 0]: the nearest multiple of [10 ^ -n], ties to
    even. *)
Definition py_round (x : R) (n : nat) : R :=
  IZR (round_half_even (x * 10 ^ n)) / 10 ^ n.

(** [1.0001] *)
Definition TICK_BASE : R := 10001 / 10000.
Definition MIN_TICK : Z := -887272.
Definition MAX_TICK : Z := 887272.

(** [UniswapV3Math.price_to_tick] *)
Definition price_to_tick (price : R) : fres Z :=
  if Rle_dec price 0 then FErr ValueError else
  lp <-! py_log price ;;
  lb <-! py_log TICK_BASE ;;
  raw_tick <-! py_div lp lb ;;
  let clamped := Rmax (IZR MIN_TICK) (Rmin (IZR MAX_TICK) raw_tick) in
  FOk (py_floor clamped).

(** [UniswapV3Math.tick_to_price]: the tick is an int, [1.0001 ** tick] a
    float. *)
Definition tick_to_price (tick : Z) : R :=
  let tick := Z.max MIN_TICK (Z.min MAX_TICK tick) in
  powerRZ TICK_BASE tick.

(** [UniswapV3Math.calculate_liquidity] *)
Definition calculate_liquidity (amount0 amount1 price_current price_lower price_upper : R)
    : fres R :=
  sp_c <-! py_sqrt price_current ;;
  sp_l <-! py_sqrt price_lower ;;
  sp_u <-! py_sqrt price_upper ;;
  if Rle_dec price_current price_lower then
    il <-! py_div 1 sp_l ;;
    iu <-! py_div 1 sp_u ;;
    let denom := il - iu in
    if Rlt_dec 0 denom then py_div amount0 denom else FOk 0
  else if Rle_dec price_upper price_current then
    let denom := sp_u - sp_l in
    if Rlt_dec 0 denom then py_div amount1 denom else FOk 0
  else
    ic <-! py_div 1 sp_c ;;
    iu <-! py_div 1 sp_u ;;
    let denom0 := ic - iu in
    let denom1 := sp_c - sp_l in
    l0 <-! (if Rlt_dec 0 denom0 then py_div amount0 denom0 else FOk 0) ;;
    l1 <-! (if Rlt_dec 0 denom1 then py_div amount1 denom1 else FOk 0) ;;
    FOk (if Rlt_dec 0 l0 then if Rlt_dec 0 l1 then Rmin l0 l1 else Rmax l0 l1
         else Rmax l0 l1).

Record fee_apy : Type := mkFeeApy {
  daily_fees_usd : R;
  annual_fees_usd : R;
  apy_pct : R
}.

(** [UniswapV3Math.estimate_fee_apy] *)
Definition estimate_fee_apy (volume_24h fee_tier position_liquidity
                             total_pool_liquidity position_value_usd : R) : fres fee_apy :=
  if Rle_dec total_pool_liquidity 0 then FOk (mkFeeApy 0 0 0) else
  if Rle_dec position_value_usd 0 then FOk (mkFeeApy 0 0 0) else
  share <-! py_div position_liquidity total_pool_liquidity ;;
  let daily_fees := volume_24h * fee_tier * share in
  let annual_fees := daily_fees * 365 in
  q <-! py_div annual_fees position_value_usd ;;
  let apy := q * 100 in
  FOk (mkFeeApy (py_round daily_fees 4) (py_round annual_fees 2) (py_round apy 2)).

(** [RiskAnalyzer.impermanent_loss] *)
Definition impermanent_loss (price_initial price_current : R) : fres R :=
  if Rle_dec price_initial 0 then FOk 0 else
  r <-! py_div price_current price_initial ;;
  s <-! py_sqrt r ;;
  q <-! py_div (2 * s) (1 + r) ;;
  let il := q - 1 in
  FOk (py_round (il * 100) 4).

Record il_v3 : Type := mkILv3 {
  il_v2_pct : R;
  il_v3_pct : R;
  il_capital_efficiency : R;
  price_ratio : R
}.

(** [RiskAnalyzer.impermanent_loss_v3] *)
Definition impermanent_loss_v3 (price_initial price_current price_lower price_upper : R)
    : fres il_v3 :=
  if Rle_dec price_initial 0 then FOk (mkILv3 0 0 1 1) else
  if Rle_dec price_lower 0 then FOk (mkILv3 0 0 1 1) else
  if Rle_dec price_upper price_lower then FOk (mkILv3 0 0 1 1) else
  r <-! py_div price_current price_initial ;;
  s <-! py_sqrt r ;;
  q <-! py_div (2 * s) (1 + r) ;;
  let il_v2 := (q - 1) * 100 in
  x <-! py_div price_lower price_upper ;;
  ratio <-! py_sqrt x ;;
  let denom := 1 - ratio in
  ce <-! (if Rlt_dec 0 denom then py_div 1 denom else FOk 1) ;;
  let il_v3 := Rmax (il_v2 * ce) (-100) in
  FOk (mkILv3 (py_round il_v2 4) (py_round il_v3 4) (py_round ce 2) (py_round r 6)).

Record proximity : Type := mkProximity {
  prox_in_range : bool;
  downside_buffer_pct : R;
  upside_buffer_pct : R;
  position_in_range_pct : R
}.

(** [RiskAnalyzer.range_proximity] *)
Definition range_proximity (current_price range_min range_max : R) : fres proximity :=
  if Rle_dec range_max range_min then FOk (mkProximity false 0 0 0) else
  if Rle_dec current_price 0 then FOk (mkProximity false 0 0 0) else
  let in_range := Rleb range_min current_price && Rleb current_price range_max in
  d <-! py_div (current_price - range_min) current_price ;;
  let downside := d * 100 in
  u <-! py_div (range_max - current_price) current_price ;;
  let upside := u * 100 in
  let total_range := range_max - range_min in
  pos_pct <-! (if in_range then
                 p <-! py_div (current_price - range_min) total_range ;; FOk (p * 100)
               else FOk 0) ;;
  FOk (mkProximity in_range (py_round downside 2) (py_round upside 2)
         (py_round pos_pct 2)).

Definition DEFAULT_CAPITAL_USD : R := 10000.

(** One entry of the dict built by [generate_position_strategies]; the
    text fields (risk level, description, token symbols) are not
    modelled. *)
Record strategy : Type := mkStrategy {
  strategy_name : string;
  strategy_range_width_pct : R;
  lower_price : R;
  upper_price : R;
  strategy_capital_efficiency : R;
  total_value_usd : R;
  token0_amount : R;
  token1_amount : R;
  apr_estimate : R;
  daily_fees_est : R;
  weekly_fees_est : R;
  monthly_fees_est : R;
  annual_fees_est : R
}.

(** The body of the [for] loop, for one strategy. *)
Definition strategy_metrics (name : string) (range_width : R)
    (current_price investment pool_apr current_ce : R) : strategy :=
  let width_pct := range_width / 100 in
  let lower := current_price * (1 - width_pct) in
  let upper := current_price * (1 + width_pct) in
  let ce := CapitalEfficiency.capital_efficiency_vs_v2 lower upper in
  let t0 := if Rlt_dec 0 current_price then (investment * (1 / 2)) / current_price else 0 in
  let t1 := investment * (1 / 2) in
  let apr :=
    if Rlt_dec 0 pool_apr then
      let baseline_ce := if Rlt_dec 0 current_ce then current_ce else Rmax ce 1 in
      let eff_ratio := ce / Rmax baseline_ce 1 in
      (pool_apr * eff_ratio) / 100
    else (5 / 100) * (ce / 2) in
  let annual_fees := investment * apr in
  mkStrategy name range_width lower upper ce investment t0 t1 apr
    (py_round (annual_fees / 365) 4) (py_round (annual_fees / 52) 4)
    (py_round (annual_fees / 12) 2) (py_round annual_fees 2).

(** [generate_position_strategies], the entries in the dict's order;
    [volume_24h], [fee_tier] and [tvl] are accepted and not used by the
    code. *)
Definition generate_position_strategies (current_price : R) (volatility : option R)
    (pool_apr volume_24h fee_tier tvl position_value current_ce : R) : list strategy :=
  let volatility := match volatility with Some v => v | None => 1 / 2 end in
  let investment := if Rlt_dec 0 position_value then position_value else DEFAULT_CAPITAL_USD in
  let vol := volatility * 100 in
  map (fun nw => strategy_metrics (fst nw) (snd nw) current_price investment pool_apr current_ce)
    [("conservative", Rmin 80 (vol * (16 / 10)));
     ("moderate", Rmin 50 (vol * 1));
     ("aggressive", Rmin 20 (vol * (4 / 10)))].

(** [_classify_current_strategy] *)
Definition classify_current_strategy (range_min range_max current_price : R) : string :=
  if Rle_dec range_min 0 then "unknown" else
  if Rle_dec range_max 0 then "unknown" else
  if Rle_dec current_price 0 then "unknown" else
  let range_width_pct := ((range_max - range_min) / current_price) * 100 in
  if Rle_dec 80 range_width_pct then "conservative"
  else if Rle_dec 40 range_width_pct then "moderate"
  else "aggressive".

(** [PositionReader]'s token amounts. *)

Definition Q96 : Z := (2 ^ 96)%Z.

(** [x / (10 ** d)] for a float [x] and an int [d]. For [d >= 0] the int
    [10 ** d] is converted to a float, which overflows exactly from
    [d = 309] on ([pow10_overflow] below); for [d < 0] it is a float,
    [0.0] from [d = -324] on. Python builds [10 ** d] in memory; running
    out of memory for an astronomically large [d] is not modelled. *)
Definition float_div_pow10 (x : R) (d : Z) : fres R :=
  if (0 <=? d)%Z then
    if (309 <=? d)%Z then FErr OverflowError else FOk (x / IZR (10 ^ d))
  else if (d <=? -324)%Z then FErr ZeroDivisionError else FOk (x / powerRZ 10 d).

(** [0 / (10 ** d)] for the int [0]: int true division is exact; a float
    [10 ** d] that is [0.0] raises. Memory exhaustion as above is not
    modelled. *)
Definition zero_div_pow10 (d : Z) : fres R :=
  if (0 <=? d)%Z then FOk 0
  else if (d <=? -324)%Z then FErr ZeroDivisionError else FOk 0.

(** [a / b] for two ints, [b > 0]: the correctly rounded quotient, which
    raises [OverflowError] from [|a| >= FLOAT_INT_OVERFLOW * b] on. *)
Definition py_int_true_div (a b : Z) : fres R :=
  if (FLOAT_INT_OVERFLOW * b <=? Z.abs a)%Z then FErr OverflowError
  else FOk (IZR a / IZR b).

(** [n * x] for an int [n] and a float [x]: [n] is converted to a float
    first ([OverflowError] from [|n| >= FLOAT_INT_OVERFLOW] on); a product
    that overflows is [inf], not an exception. *)
Definition py_int_float_mul (n : Z) (x : R) : fres R :=
  if (FLOAT_INT_OVERFLOW <=? Z.abs n)%Z then FErr OverflowError else FOk (IZR n * x).

(** Half the least positive double, [2 ^ -1075]: a result at or below it
    rounds to [0.0]. *)
Definition FLOAT_UNDERFLOW : R := / IZR (2 ^ 1075).

(** [1.0001 ** y] for a float [y]: C [pow]; a result beyond the largest
    double makes Python raise [OverflowError] ("Numerical result out of
    range"), one that rounds to zero is [0.0] (Python ignores the
    underflow). *)
Definition py_pow_tick_base (y : R) : fres R :=
  let v := Rpower TICK_BASE y in
  if Rle_dec (IZR FLOAT_INT_OVERFLOW) v then FErr OverflowError
  else if Rle_dec v FLOAT_UNDERFLOW then FOk 0
  else FOk v.

Record token_amounts : Type := mkAmounts {
  amount0 : R;
  amount1 : R
}.

(** [PositionReader._compute_token_amounts], in the order Python
    evaluates it: [sqrtPriceX96 / Q96] and [tick / 2] are int true
    divisions, [1.0001 ** (tick / 2)] a float power, [1 / x] a float
    division, [liquidity * x] converts [liquidity] to a float; in the
    branches where the code assigns the int [0], the division by
    [10 ** decimals] is an int division. Both raw amounts are computed
    before the returned dict divides them. *)
Definition compute_token_amounts (liq sqrtPriceX96 current_tick tick_lower tick_upper
                                  decimals0 decimals1 : Z) : fres token_amounts :=
  if ((liq =? 0) || (sqrtPriceX96 =? 0))%Z then FOk (mkAmounts 0 0) else
  sqrtP <-! py_int_true_div sqrtPriceX96 Q96 ;;
  el <-! py_int_true_div tick_lower 2 ;;
  sqrtPl <-! py_pow_tick_base el ;;
  eu <-! py_int_true_div tick_upper 2 ;;
  sqrtPu <-! py_pow_tick_base eu ;;
  if (current_tick <? tick_lower)%Z then
    il <-! py_div 1 sqrtPl ;;
    iu <-! py_div 1 sqrtPu ;;
    amount0_raw <-! py_int_float_mul liq (il - iu) ;;
    a0 <-! float_div_pow10 amount0_raw decimals0 ;;
    a1 <-! zero_div_pow10 decimals1 ;;
    FOk (mkAmounts a0 a1)
  else if (current_tick >=? tick_upper)%Z then
    amount1_raw <-! py_int_float_mul liq (sqrtPu - sqrtPl) ;;
    a0 <-! zero_div_pow10 decimals0 ;;
    a1 <-! float_div_pow10 amount1_raw decimals1 ;;
    FOk (mkAmounts a0 a1)
  else
    ip <-! py_div 1 sqrtP ;;
    iu <-! py_div 1 sqrtPu ;;
    amount0_raw <-! py_int_float_mul liq (ip - iu) ;;
    amount1_raw <-! py_int_float_mul liq (sqrtP - sqrtPl) ;;
    a0 <-! float_div_pow10 amount0_raw decimals0 ;;
    a1 <-! float_div_pow10 amount1_raw decimals1 ;;
    FOk (mkAmounts a0 a1).

End DefiMath.

(* ================================================================== *)
(** * Proofs *)

Example encode_uint256_1 :
  encode_uint256 1 = zeros 63 ++ "1".
Proof. vm_compute. reflexivity. Qed.

(** [2^256 - 887220] ends in [f2764c]; the doctest of [encode_int24]
    shows [...f27e8c], which is the encoding of [-885108]. *)
Example encode_int24_887220 :
  encode_int24 (-887220) =
  "fffffffffffffffffffffffffffffffffffffffffffffffffffffffffff2764c".
Proof. vm_compute. reflexivity. Qed.

Example int16_block : int16 "0x1a2b3c" = Ok 1715004.
Proof. vm_compute. reflexivity. Qed.

(** ** Strings as lists of characters *)

Lemma las_app (s1 s2 : string) :
  list_ascii_of_string (s1 ++ s2) = (list_ascii_of_string s1 ++ list_ascii_of_string s2)%list.
Proof. induction s1 as [|c s1 IH]; simpl; [reflexivity | now rewrite IH]. Qed.

Lemma las_length (s : string) : String.length s = List.length (list_ascii_of_string s).
Proof. induction s as [|c s IH]; simpl; congruence. Qed.

Lemma substring_full (s : string) : substring 0 (String.length s) s = s.
Proof. induction s as [|c s IH]; simpl; [reflexivity | now rewrite IH]. Qed.

Lemma zeros_length (k : nat) : String.length (zeros k) = k.
Proof. induction k; simpl; congruence. Qed.

Lemma las_zeros (k : nat) : list_ascii_of_string (zeros k) = repeat "0"%char k.
Proof. induction k; simpl; congruence. Qed.

(** ** Digit characters *)

Lemma digit_facts (c : ascii) :
  is_digit c ->
  py_space c = false /\ Ascii.eqb c "_" = false /\ Ascii.eqb c "-" = false /\
  Ascii.eqb c "+" = false /\ Ascii.eqb c "x" = false /\ Ascii.eqb c "X" = false.
Proof.
  unfold is_digit.
  destruct c as [[] [] [] [] [] [] [] []]; vm_compute;
    first [ intros H; exfalso; apply H; reflexivity | intros _; repeat split ].
Qed.

Lemma hex_val_char (d : Z) : 0 <= d < 16 -> hex_val (hex_char d) = Some d.
Proof.
  intros Hd.
  assert (d = 0 \/ d = 1 \/ d = 2 \/ d = 3 \/ d = 4 \/ d = 5 \/ d = 6 \/ d = 7 \/
          d = 8 \/ d = 9 \/ d = 10 \/ d = 11 \/ d = 12 \/ d = 13 \/ d = 14 \/ d = 15)
    as Hc by lia.
  repeat destruct Hc as [-> | Hc]; try reflexivity; subst; reflexivity.
Qed.

Lemma strip_left_digits (l : list ascii) :
  Forall is_digit l -> strip_left l = l.
Proof.
  destruct l as [|c l]; intros H; [reflexivity|].
  inversion H; subst. simpl. now rewrite (proj1 (digit_facts c ltac:(assumption))).
Qed.

Lemma py_strip_digits (l : list ascii) :
  Forall is_digit l -> py_strip l = l.
Proof.
  intros H. unfold py_strip.
  rewrite (strip_left_digits l H).
  rewrite (strip_left_digits (rev l)) by (apply Forall_rev; exact H).
  apply rev_involutive.
Qed.

Lemma hex_rest_digits (l : list ascii) (a : Z) :
  Forall is_digit l -> hex_rest l a = Some (fold_left hex_step l a).
Proof.
  revert a. induction l as [|c l IH]; intros a H; [reflexivity|].
  inversion H as [|? ? Hc Hl]; subst. simpl.
  destruct (digit_facts c Hc) as (_ & -> & _).
  unfold hex_step at 2. destruct (hex_val c) as [v|] eqn:E; [|contradiction].
  now apply IH.
Qed.

(** [int(s, 16)] on a non-empty string of hex digits is their value. *)
Lemma int16_digits (l : list ascii) :
  l <> [] -> Forall is_digit l ->
  int16 (string_of_list_ascii l) = Ok (fold_left hex_step l 0).
Proof.
  intros Hne H. unfold int16.
  rewrite list_ascii_of_string_of_list_ascii, py_strip_digits by exact H.
  destruct l as [|c l]; [congruence|].
  inversion H as [|? ? Hc Hl]; subst.
  destruct (digit_facts c Hc) as (_ & _ & Hm & Hp & _).
  unfold hex_signed. rewrite Hm, Hp.
  assert (Hb : hex_body (c :: l) = Some (fold_left hex_step (c :: l) 0)).
  { unfold hex_body. cbn [fold_left]. unfold hex_step at 2.
    destruct (hex_val c) as [v|] eqn:E; [|contradiction].
    rewrite hex_rest_digits by exact Hl. reflexivity. }
  assert (Hu : hex_unsigned (c :: l) = hex_body (c :: l)).
  { destruct l as [|x r]; [reflexivity|].
    inversion Hl as [|? ? Hx _]; subst.
    destruct (digit_facts x Hx) as (_ & _ & _ & _ & Hx1 & Hx2).
    unfold hex_unsigned. rewrite Hx1, Hx2, andb_false_r. reflexivity. }
  rewrite Hu, Hb. reflexivity.
Qed.

(** ** [format(n, 'x')] produces the base-16 digits of [n] *)

Lemma fold_hex_step_app (p : list ascii) (c : ascii) :
  fold_left hex_step (p ++ [c])%list 0 = hex_step (fold_left hex_step p 0) c.
Proof. now rewrite fold_left_app. Qed.

Lemma hex_digits_ok (f : nat) (n : Z) (acc : string) :
  0 < n < 16 ^ Z.of_nat f ->
  exists p, list_ascii_of_string (hex_digits f n acc) = (p ++ list_ascii_of_string acc)%list
    /\ p <> [] /\ Forall is_digit p /\ fold_left hex_step p 0 = n
    /\ 16 ^ (Z.of_nat (List.length p) - 1) <= n < 16 ^ Z.of_nat (List.length p).
Proof.
  revert n acc. induction f as [|f IH]; intros n acc Hn.
  - simpl in Hn. lia.
  - rewrite Nat2Z.inj_succ, Z.pow_succ_r in Hn by lia.
    pose proof (Z.div_mod n 16 ltac:(lia)) as Hdm.
    pose proof (Z.mod_pos_bound n 16 ltac:(lia)) as Hd.
    assert (Hq0 : 0 <= n / 16) by (apply Z.div_pos; lia).
    cbn [hex_digits].
    destruct (Z.eqb_spec (n / 16) 0) as [Hq|Hq].
    + exists [hex_char (n mod 16)]. cbn.
      assert (Hv := hex_val_char (n mod 16) Hd).
      split; [reflexivity|]. split; [congruence|].
      split; [constructor; [unfold is_digit; congruence | constructor]|].
      unfold hex_step. rewrite Hv. lia.
    + assert (Hq1 : 0 < n / 16 < 16 ^ Z.of_nat f).
      { split; [lia|]. apply Z.div_lt_upper_bound; lia. }
      destruct (IH (n / 16) (String (hex_char (n mod 16)) acc) Hq1)
        as (p & Hl & Hne & Hdig & Hval & Hlo & Hhi).
      assert (Hv := hex_val_char (n mod 16) Hd).
      exists (p ++ [hex_char (n mod 16)])%list.
      split; [rewrite Hl; simpl; now rewrite <- app_assoc|].
      split; [now destruct p|].
      split; [apply Forall_app; split; [exact Hdig | constructor; [unfold is_digit; congruence | constructor]]|].
      split; [rewrite fold_hex_step_app, Hval; unfold hex_step; rewrite Hv; lia|].
      rewrite length_app. cbn [List.length].
      rewrite Nat2Z.inj_add. cbn [Z.of_nat Pos.of_succ_nat].
      assert (Hk : (1 <= Z.of_nat (List.length p))%Z) by (destruct p; [congruence | simpl; lia]).
      replace (Z.of_nat (List.length p) + 1 - 1) with (Z.of_nat (List.length p)) by lia.
      rewrite Z.pow_add_r by lia.
      assert (E : 16 ^ Z.of_nat (List.length p) = 16 ^ (Z.of_nat (List.length p) - 1) * 16)
        by (rewrite Z.mul_comm, <- Z.pow_succ_r by lia; f_equal; lia).
      rewrite E in *. simpl (16 ^ 1). lia.
Qed.

Lemma to_hex_ok (n : Z) :
  0 <= n ->
  exists p, list_ascii_of_string (to_hex n) = p
    /\ p <> [] /\ Forall is_digit p /\ fold_left hex_step p 0 = n
    /\ n < 16 ^ Z.of_nat (List.length p)
    /\ (0 < n -> 16 ^ (Z.of_nat (List.length p) - 1) <= n).
Proof.
  intros Hn. unfold to_hex.
  destruct (Z.eqb_spec n 0) as [->|Hn0].
  - exists ["0"%char]. cbn. repeat split; try congruence; try lia.
    constructor; [discriminate | constructor].
  - assert (Hb : n < 16 ^ Z.of_nat (Z.to_nat (Z.log2 n) + 1)).
    { rewrite Nat2Z.inj_add, Z2Nat.id by apply Z.log2_nonneg.
      destruct (Z.log2_spec n ltac:(lia)) as [_ H2].
      rewrite <- Z.add_1_r in H2.
      eapply Z.lt_le_trans; [exact H2|].
      apply Z.pow_le_mono_l. pose proof (Z.log2_nonneg n). lia. }
    destruct (hex_digits_ok (Z.to_nat (Z.log2 n) + 1) n "" ltac:(lia))
      as (p & Hl & Hne & Hdig & Hval & Hlo & Hhi).
    exists p. rewrite Hl, app_nil_r. repeat split; try assumption; lia.
Qed.

Lemma fold_hex_step_zeros (k : nat) :
  fold_left hex_step (repeat "0"%char k) 0 = 0.
Proof. induction k as [|k IH]; [reflexivity|]. simpl. exact IH. Qed.

Lemma Q256_hex : Q256 = 16 ^ 64.
Proof. reflexivity. Qed.

Lemma string_length_app (s1 s2 : string) :
  String.length (s1 ++ s2) = (String.length s1 + String.length s2)%nat.
Proof. rewrite !las_length, las_app. apply length_app. Qed.

(** ** C2: the codec round-trips on the listed values *)

(** C2: [decode_uint(encode_uint256(x), 0) == x] for
    [x] in [{0, 1, 2^128, 2^256-1}], and
    [decode_int(encode_int24(t), 0) == t] for
    [t] in [{0, 1, -1, 887272, -887272}]. *)
Theorem codec_roundtrip_listed :
  Forall (fun x => decode_uint (encode_uint256 x) 0 = Ok x)
    [0; 1; 2 ^ 128; 2 ^ 256 - 1] /\
  Forall (fun t => decode_int (encode_int24 t) 0 = Ok t)
    [0; 1; -1; 887272; -887272].
Proof. split; repeat constructor; vm_compute; reflexivity. Qed.

(** ** C4: [encode_uint256] has no range check *)

(** C4 (counterexample): [encode_uint256(-1)] returns a string (a sign
    followed by zero padding) instead of failing, and
    [encode_uint256(2^256)] returns 65 characters instead of failing. *)
Lemma encode_uint256_out_of_range :
  encode_uint256 (-1) = "-" ++ zeros 62 ++ "1" /\
  String.length (encode_uint256 Q256) = 65%nat.
Proof. split; vm_compute; reflexivity. Qed.

(** C4 (amended): [encode_uint256] never fails. For [0 <= v < 2^256] it
    returns exactly 64 hex digits, left-zero-padded, whose base-16 value
    is [v]; for [v < 0] it returns a string starting with ["-"]; for
    [v >= 2^256] it returns more than 64 characters. *)
Theorem encode_uint256_spec (v : Z) :
  (0 <= v < Q256 ->
     String.length (encode_uint256 v) = 64%nat
     /\ encode_uint256 v = zeros (64 - String.length (to_hex v)) ++ to_hex v
     /\ Forall is_digit (list_ascii_of_string (encode_uint256 v))
     /\ decode_uint (encode_uint256 v) 0 = Ok v) /\
  (v < 0 -> exists rest, encode_uint256 v = String "-" rest) /\
  (Q256 <= v -> (64 < String.length (encode_uint256 v))%nat).
Proof.
  unfold encode_uint256, format_hex0, ABI_WORD_HEX.
  split; [|split].
  - intros Hv.
    replace (v <? 0) with false by (symmetry; apply Z.ltb_ge; lia).
    destruct (to_hex_ok v ltac:(lia)) as (p & Hl & Hne & Hdig & Hval & Hhi & Hlo).
    assert (HL : String.length (to_hex v) = List.length p) by (rewrite las_length, Hl; reflexivity).
    assert (Hle : (List.length p <= 64)%nat).
    { destruct (Z.eq_dec v 0) as [->|Hv0].
      - rewrite <- HL. simpl. lia.
      - specialize (Hlo ltac:(lia)). rewrite Q256_hex in Hv.
        assert (Hlt : 16 ^ (Z.of_nat (List.length p) - 1) < 16 ^ 64) by lia.
        apply Z.pow_lt_mono_r_iff in Hlt; lia. }
    set (s := zeros (64 - String.length (to_hex v)) ++ to_hex v).
    assert (Hs : list_ascii_of_string s = (repeat "0"%char (64 - List.length p) ++ p)%list)
      by (unfold s; rewrite las_app, las_zeros, Hl, HL; reflexivity).
    assert (Hlen : String.length s = 64%nat)
      by (rewrite las_length, Hs, length_app, repeat_length; lia).
    assert (Hd : Forall is_digit (list_ascii_of_string s)).
    { rewrite Hs. apply Forall_app. split; [|exact Hdig].
      apply Forall_forall. intros c Hc. apply repeat_spec in Hc. subst c. discriminate. }
    split; [exact Hlen|]. split; [reflexivity|]. split; [exact Hd|].
    unfold decode_uint, py_slice, ABI_WORD_HEX.
    replace (0 * 64 + 64 - 0 * 64)%nat with (String.length s) by (rewrite Hlen; reflexivity).
    replace (0 * 64)%nat with 0%nat by reflexivity.
    rewrite substring_full.
    rewrite <- (string_of_list_ascii_of_string s), Hs.
    rewrite int16_digits.
    + rewrite fold_left_app, fold_hex_step_zeros, Hval. reflexivity.
    + intros H. apply app_eq_nil in H. destruct H. congruence.
    + rewrite <- Hs. exact Hd.
  - intros Hv. replace (v <? 0) with true by (symmetry; apply Z.ltb_lt; lia).
    eexists. reflexivity.
  - intros Hv.
    replace (v <? 0) with false by (symmetry; apply Z.ltb_ge; unfold Q256 in Hv; lia).
    destruct (to_hex_ok v ltac:(unfold Q256 in Hv; lia)) as (p & Hl & _ & _ & _ & Hhi & _).
    assert (HL : String.length (to_hex v) = List.length p) by (rewrite las_length, Hl; reflexivity).
    rewrite string_length_app, zeros_length, HL.
    rewrite Q256_hex in Hv.
    assert (Hlt : 16 ^ 64 < 16 ^ Z.of_nat (List.length p)) by lia.
    apply Z.pow_lt_mono_r_iff in Hlt; lia.
Qed.

Lemma encode_uint256_spec_witness :
  (0 <= 3000 < Q256) /\ String.length (encode_uint256 3000) = 64%nat.
Proof.
  assert (H : 0 <= 3000 < Q256) by (unfold Q256; lia).
  split; [exact H|].
  exact (proj1 (proj1 (encode_uint256_spec 3000) H)).
Defined.

(** ** Sorting responses by id *)

Lemma insert_by_id_perm (x : robj) (l : list robj) :
  Permutation (insert_by_id x l) (x :: l).
Proof.
  induction l as [|y l IH]; simpl; [reflexivity|].
  destruct (id_key x <=? id_key y); [reflexivity|].
  rewrite IH. apply perm_swap.
Qed.

Lemma sort_by_id_perm (l : list robj) : Permutation (sort_by_id l) l.
Proof.
  induction l as [|x l IH]; simpl; [reflexivity|].
  rewrite insert_by_id_perm. now apply perm_skip.
Qed.

Lemma insert_by_id_sorted (x : robj) (l : list robj) :
  Sorted key_le l -> Sorted key_le (insert_by_id x l).
Proof.
  induction l as [|y l IH]; intros H; simpl; [repeat constructor|].
  destruct (Z.leb_spec (id_key x) (id_key y)) as [Hxy|Hxy].
  - constructor; [exact H | constructor; exact Hxy].
  - apply Sorted_inv in H as [Hl Hhd].
    constructor; [now apply IH|].
    destruct l as [|z l]; simpl; [constructor; unfold key_le; lia|].
    inversion Hhd; subst.
    destruct (id_key x <=? id_key z); constructor; unfold key_le in *; lia.
Qed.

Lemma sort_by_id_sorted (l : list robj) : Sorted key_le (sort_by_id l).
Proof.
  induction l as [|x l IH]; simpl; [constructor|]. now apply insert_by_id_sorted.
Qed.

(** A list sorted by key and a permutation of a list whose keys strictly
    increase is that list. *)
Lemma sorted_perm_unique (l1 l2 : list robj) :
  Sorted key_le l1 -> StronglySorted key_lt l2 -> Permutation l1 l2 -> l1 = l2.
Proof.
  revert l1. induction l2 as [|b r2 IH]; intros l1 H1 H2 Hp.
  - now apply Permutation_sym, Permutation_nil in Hp.
  - destruct l1 as [|a r1]; [apply Permutation_nil in Hp; discriminate|].
    apply Sorted_StronglySorted in H1; [|intros x y z; unfold key_le; lia].
    apply StronglySorted_inv in H1 as [Hr1 Ha].
    apply StronglySorted_inv in H2 as [Hr2 Hb].
    assert (a = b) as <-.
    { destruct (Permutation_in b (Permutation_sym Hp) (in_eq b r2)) as [|Hbin]; [congruence|].
      destruct (Permutation_in a Hp (in_eq a r1)) as [|Hain]; [congruence|].
      rewrite Forall_forall in Ha, Hb.
      specialize (Ha b Hbin). specialize (Hb a Hain).
      unfold key_le, key_lt in *. lia. }
    f_equal. apply IH.
    + now apply StronglySorted_Sorted.
    + exact Hr2.
    + exact (Permutation_cons_inv Hp).
Qed.

Lemma mk_payloads_ids (i : Z) (calls : list (string * string)) :
  map p_id (mk_payloads i calls) =
  map (fun k => i + Z.of_nat k) (seq 1 (List.length calls)).
Proof.
  revert i. induction calls as [|[to data] calls IH]; intros i; [reflexivity|].
  simpl. rewrite IH. f_equal; try lia.
  rewrite <- (seq_shift _ 1), map_map. apply map_ext. intros k. lia.
Qed.

Lemma ids_seq_strongly_sorted (rs : list robj) (start n : nat) :
  map r_id rs = map (fun k => Some (Z.of_nat k)) (seq start n) ->
  StronglySorted key_lt rs.
Proof.
  revert start n. induction rs as [|r rs IH]; intros start n H; [constructor|].
  destruct n as [|n]; [discriminate|].
  simpl in H. injection H as Hr Hrs.
  constructor; [exact (IH _ _ Hrs)|].
  apply Forall_forall. intros y Hy.
  assert (Hy' : In (r_id y) (map r_id rs)) by (now apply in_map).
  rewrite Hrs in Hy'. apply in_map_iff in Hy' as (k & Hk & Hin).
  apply in_seq in Hin.
  unfold key_lt, id_key. rewrite Hr, <- Hk. lia.
Qed.

(** C3: [eth_call_batch] tags the calls with ids [1..n]; an array reply
    that is any permutation of the responses (ids [1..n] in request
    order) comes back in request order; a single-object reply gives a
    one-element list holding that object's result (without [0x]). *)
Theorem eth_call_batch_order (nd : node) (calls : list (string * string)) :
  map p_id (mk_payloads 0 calls) = map Z.of_nat (seq 1 (List.length calls)) /\
  (forall l rs,
     nd (ReqBatch (mk_payloads 0 calls)) = Ok (RArr l) ->
     Permutation l rs ->
     map r_id rs = map (fun p => Some (p_id p)) (mk_payloads 0 calls) ->
     eth_call_batch nd calls = ([ReqBatch (mk_payloads 0 calls)], Ok (map batch_entry rs))) /\
  (forall o,
     nd (ReqBatch (mk_payloads 0 calls)) = Ok (RObj o) ->
     eth_call_batch nd calls =
       ([ReqBatch (mk_payloads 0 calls)], Ok [drop2 (default_str "0x" (r_result o))])).
Proof.
  assert (Hids : map p_id (mk_payloads 0 calls) = map Z.of_nat (seq 1 (List.length calls)))
    by (rewrite mk_payloads_ids; apply map_ext; intros; lia).
  split; [exact Hids|]. split.
  - intros l rs Hnd Hp Hrs.
    unfold eth_call_batch, bindM, post. rewrite Hnd. simpl.
    assert (Hsorted : sort_by_id l = rs).
    { apply sorted_perm_unique.
      - apply sort_by_id_sorted.
      - apply (ids_seq_strongly_sorted rs 1 (List.length calls)).
        rewrite Hrs, <- (map_map p_id (fun z => Some z)), Hids, map_map. reflexivity.
      - rewrite sort_by_id_perm. exact Hp. }
    now rewrite Hsorted.
  - intros o Hnd. unfold eth_call_batch, bindM, post. rewrite Hnd. reflexivity.
Qed.

Lemma eth_call_batch_order_witness :
  eth_call_batch swapped_batch_node demo_calls =
  ([ReqBatch (mk_payloads 0 demo_calls)],
   Ok (map batch_entry [mkRobj (Some 1) (Some ("0x" ++ word_hex "1")) None;
                        mkRobj (Some 2) (Some ("0x" ++ word_hex "2")) None])).
Proof.
  apply (proj1 (proj2 (eth_call_batch_order swapped_batch_node demo_calls))
           [mkRobj (Some 2) (Some ("0x" ++ word_hex "2")) None;
            mkRobj (Some 1) (Some ("0x" ++ word_hex "1")) None]).
  - reflexivity.
  - apply perm_swap.
  - reflexivity.
Defined.

(** ** C5: the block-number query *)

(** C5 (counterexample): [eth_block_number] itself raises, both when the
    node is unreachable and when it answers with an error object. *)
Lemma eth_block_number_raises :
  eth_block_number unreachable_node = ([ReqBlockNumber], Err TransportError) /\
  eth_block_number error_reply_node = ([ReqBlockNumber], Err RuntimeError).
Proof. split; reflexivity. Qed.

(** C5 (amended): [eth_block_number] raises when the node is unreachable
    or answers with an error; its caller [_get_block_number] catches every
    exception, so it never raises and returns 0 in those cases. *)
Theorem get_block_number_fallback (nd : node) :
  (exists n, get_block_number nd = ([ReqBlockNumber], Ok n)) /\
  (forall e, nd ReqBlockNumber = Err e ->
     eth_block_number nd = ([ReqBlockNumber], Err e) /\
     get_block_number nd = ([ReqBlockNumber], Ok 0)) /\
  (forall o m, nd ReqBlockNumber = Ok (RObj o) -> r_error o = Some m ->
     eth_block_number nd = ([ReqBlockNumber], Err RuntimeError) /\
     get_block_number nd = ([ReqBlockNumber], Ok 0)).
Proof.
  unfold get_block_number, eth_block_number, try_except, bindM, post.
  split; [|split].
  - destruct (nd ReqBlockNumber) as [[o|l]|e]; simpl.
    + destruct (r_error o); [eexists; reflexivity|].
      destruct (r_result o) as [s|]; [destruct (int16 s)|]; eexists; reflexivity.
    + eexists; reflexivity.
    + eexists; reflexivity.
  - intros e He. rewrite He. split; reflexivity.
  - intros o m Ho Hm. rewrite Ho. simpl. rewrite Hm. split; reflexivity.
Qed.

Lemma get_block_number_fallback_witness :
  error_reply_node ReqBlockNumber = Ok (RObj (mkRobj (Some 1) None (Some "execution reverted"))) /\
  get_block_number error_reply_node = ([ReqBlockNumber], Ok 0).
Proof.
  split; [reflexivity|].
  exact (proj2 (proj2 (proj2 (get_block_number_fallback error_reply_node))
                 _ "execution reverted" eq_refl eq_refl)).
Defined.

(** ** C6: where the batch-to-sequential fallback lives *)

Lemma eth_call_trace (nd : node) (to data : string) :
  fst (eth_call nd to data) = [ReqCall (mkPayload 1 to data)].
Proof.
  unfold eth_call, bindM, post.
  destruct (nd _) as [[o|l]|e]; simpl; [|reflexivity|reflexivity].
  destruct (r_error o); [reflexivity|].
  destruct (_ || _); reflexivity.
Qed.

Lemma sequential_calls_spec (nd : node) (calls : list (string * string)) :
  sequential_calls nd calls = (map single_request calls, Ok (map (single_result nd) calls)).
Proof.
  induction calls as [|[to data] calls IH]; [reflexivity|].
  simpl sequential_calls. rewrite IH.
  pose proof (eth_call_trace nd to data) as Ht.
  assert (Hh : single_result nd (to, data) =
                match snd (eth_call nd to data) with Ok s => s | Err _ => "" end)
    by reflexivity.
  destruct (eth_call nd to data) as [t [s|e]]; simpl in Ht, Hh; subst t;
    simpl; rewrite Hh, app_nil_r; reflexivity.
Qed.

(** C6 (counterexample): against a node that refuses batches but answers
    single calls, [eth_call_batch] issues one POST and raises; it never
    retries the calls one by one. *)
Lemma eth_call_batch_no_retry :
  eth_call_batch batch_refusing_node demo_calls =
  ([ReqBatch (mk_payloads 0 demo_calls)], Err TransportError).
Proof. reflexivity. Qed.

(** C6 (amended): when the batched POST fails at the transport level,
    [eth_call_batch] propagates the failure without retrying; the
    sequential fallback is done by its caller [read_position]
    ([batch_with_fallback]), which re-issues each call alone with
    [eth_call] and uses [""] for each call that raises. *)
Theorem batch_fallback_in_caller (nd : node) (calls : list (string * string)) (e : exn) :
  nd (ReqBatch (mk_payloads 0 calls)) = Err e ->
  eth_call_batch nd calls = ([ReqBatch (mk_payloads 0 calls)], Err e) /\
  batch_with_fallback nd calls =
    (ReqBatch (mk_payloads 0 calls) :: map single_request calls,
     Ok (map (single_result nd) calls)).
Proof.
  intros He.
  assert (Hb : eth_call_batch nd calls = ([ReqBatch (mk_payloads 0 calls)], Err e))
    by (unfold eth_call_batch, bindM, post; rewrite He; reflexivity).
  split; [exact Hb|].
  unfold batch_with_fallback, try_except. rewrite Hb, sequential_calls_spec. reflexivity.
Qed.

Lemma batch_fallback_in_caller_witness :
  batch_with_fallback batch_refusing_node demo_calls =
    (ReqBatch (mk_payloads 0 demo_calls) :: map single_request demo_calls,
     Ok [word_hex "7"; word_hex "7"]).
Proof.
  rewrite (proj2 (batch_fallback_in_caller batch_refusing_node demo_calls
                    TransportError eq_refl)).
  reflexivity.
Defined.

(** ** Scaling by the decimals *)



Lemma scale_int_raw (r d : Z) (sc : scaled) : scale_int r d = Ok sc -> sc = mkScaled r d.
Proof.
  unfold scale_int.
  destruct (0 <=? d), (FLOAT_INT_OVERFLOW * 10 ^ d <=? Z.abs r), (FLOAT_INT_OVERFLOW <=? Z.abs r),
    (d <=? -324); cbn; intros H; congruence.
Qed.




(** ** C1: the fee-growth-inside algorithm *)




(** ** C7: what the fee computation falls back to *)




(** ** The position reader *)

Example encode_address_doc :
  encode_address "0xC36442b4a4522E871399CD717aBDD847Ab11FE88" =
  "000000000000000000000000c36442b4a4522e871399cd717abdd847ab11fe88".
Proof. vm_compute. reflexivity. Qed.

Lemma bindM_ok_inv {A B} (m : M A) (f : A -> M B) (t : list request) (b : B) :
  bindM m f = (t, Ok b) ->
  exists a t1 t2, m = (t1, Ok a) /\ f a = (t2, Ok b).
Proof.
  destruct m as [t1 [a|e]]; simpl; [|discriminate].
  destruct (f a) as [t2 r] eqn:E. intros H. injection H as _ ->.
  exists a, t1, t2. auto.
Qed.

Ltac inv_binds H :=
  repeat (cbv beta zeta in H;
          match type of H with
          | bindM ?m ?f = (_, Ok _) =>
              let a := fresh "a" in
              let t1 := fresh "t" in
              let t2 := fresh "t" in
              let Hm := fresh "Hm" in
              apply bindM_ok_inv in H; destruct H as (a & t1 & t2 & Hm & H)
          end).

(** ** C9: zero-liquidity positions *)

(** C9 (counterexample): against [demo_node], the closed position
    (liquidity 0, ticks [-10, 10)) read with its pool address comes back
    with [liquidity_raw = 0] but [in_range = true] (pool tick 0); read
    without it, the factory lookup fails and [read_position] raises. *)
Lemma read_position_zero_liquidity_in_range :
  match snd (read_position demo_node demo_reader 7 (Some demo_pool)) with
  | Ok s => liquidity_raw s = 0 /\ in_range s = true
  | Err _ => False
  end /\
  snd (read_position demo_node demo_reader 7 None) = Err RuntimeError.
Proof. vm_compute. split; [split|]; reflexivity. Qed.

(** C9 (amended): whenever [read_position] returns a snapshot, it reports
    the decoded liquidity as [liquidity_raw] (0 for a closed position),
    and [in_range] is computed from the ticks alone:
    [tickLower <= pool tick < tickUpper]. *)
Theorem read_position_liquidity_and_range (nd : node) (rd : reader) (pid : Z)
    (pool_addr : option string) (t : list request) (s : snapshot) :
  read_position nd rd pid pool_addr = (t, Ok s) ->
  (exists pos t', read_position_nft nd rd pid = (t', Ok pos) /\
     liquidity_raw s = liquidity pos /\
     snap_tickLower s = tickLower pos /\ snap_tickUpper s = tickUpper pos) /\
  in_range s = (snap_tickLower s <=? pool_tick s) && (pool_tick s <? snap_tickUpper s).
Proof.
  intros H. unfold read_position in H.
  destruct (pid <? 0); [discriminate|].
  destruct (_ && _); [discriminate|].
  inv_binds H.
  unfold ret in H. injection H as _ <-. cbn.
  split; [|reflexivity].
  eexists _, _. split; [eassumption|]. auto.
Qed.

Lemma read_position_liquidity_and_range_witness :
  match read_position demo_node demo_reader 7 (Some demo_pool) with
  | (_, Ok s) => liquidity_raw s = 0 /\
                 in_range s = (snap_tickLower s <=? pool_tick s) && (pool_tick s <? snap_tickUpper s)
  | (_, Err _) => False
  end.
Proof.
  destruct (read_position demo_node demo_reader 7 (Some demo_pool)) as [t [s|e]] eqn:E.
  - destruct (read_position_liquidity_and_range demo_node demo_reader 7 (Some demo_pool) t s E)
      as [(pos & t' & Hnft & Hliq & _) Hr].
    split; [|exact Hr].
    rewrite Hliq. vm_compute in Hnft. injection Hnft as _ <-. reflexivity.
  - vm_compute in E. discriminate.
Defined.

(** ** C10: input validation *)

(** C10 (counterexample): an empty [pool_address] is supplied but is falsy
    in Python, so it passes validation; [read_position] then performs RPC
    calls and fails with a [RuntimeError], not a [ValueError]. *)
Lemma read_position_empty_pool_not_validated :
  fst (read_position demo_node demo_reader 5 (Some "")) <> [] /\
  snd (read_position demo_node demo_reader 5 (Some "")) = Err RuntimeError.
Proof. vm_compute. split; [discriminate | reflexivity]. Qed.

(** C10 (amended): if [position_id] is negative, or a non-empty
    [pool_address] is supplied that does not start with "0x" or whose
    length is not 42 (characters counted one byte each, as for ASCII
    addresses), [read_position] raises [ValueError] with no request sent.
    An empty [pool_address] is treated exactly as an absent one. *)
Theorem read_position_validation (nd : node) (rd : reader) (pid : Z)
    (pool_addr : option string) :
  (pid < 0 \/
   exists s, pool_addr = Some s /\ s <> ""%string /\
     (String.prefix "0x" s = false \/ String.length s <> 42%nat)) ->
  read_position nd rd pid pool_addr = ([], Err ValueError) /\
  read_position nd rd pid (Some "") = read_position nd rd pid None.
Proof.
  intros Hv. split; [|reflexivity].
  unfold read_position.
  destruct (pid <? 0) eqn:Hp; [reflexivity|].
  destruct Hv as [Hn | (s & -> & Hne & Hbad)].
  - apply Z.ltb_ge in Hp. lia.
  - cbn [py_truthy default_str].
    apply String.eqb_neq in Hne. rewrite Hne. cbn [negb andb].
    destruct Hbad as [Hb | Hb].
    + rewrite Hb. reflexivity.
    + apply Nat.eqb_neq in Hb. rewrite Hb, orb_true_r. reflexivity.
Qed.

Lemma read_position_validation_witness :
  read_position demo_node demo_reader 5 (Some "0x1234") = ([], Err ValueError).
Proof.
  apply (read_position_validation demo_node demo_reader 5 (Some "0x1234")).
  right. exists "0x1234"%string. split; [reflexivity|].
  split; [discriminate | right; vm_compute; discriminate].
Defined.

(** ** C8: capital efficiency *)

Module CapitalEfficiencyFloatProofs.
Import Floats.PrimFloat.
Local Open Scope float_scope.

(** With binary64 floats the guard [denom > 0] does not fire either: for
    the largest ratio below 1, [1 - 2^-53], the rounded square root is
    still below 1 and the result is [2^53]. *)
Example capital_efficiency_float_edge :
  PrimFloat.eqb
    (CapitalEfficiencyFloat.capital_efficiency_vs_v2 (1 - 0x1p-53)%float 1%float)
    0x1p53%float = true.
Proof. vm_compute. reflexivity. Qed.

Example capital_efficiency_float_quarter :
  PrimFloat.eqb (CapitalEfficiencyFloat.capital_efficiency_vs_v2 1%float 4%float) 2%float = true.
Proof. vm_compute. reflexivity. Qed.

End CapitalEfficiencyFloatProofs.


Module CapitalEfficiencyProofs.
Import CapitalEfficiency.
Local Open Scope R_scope.

(** C8: [capital_efficiency_vs_v2] returns 1 for every degenerate input
    ([price_upper <= price_lower] or [price_lower <= 0]) and, for
    [0 < price_lower < price_upper], returns
    [1 / (1 - sqrt (price_lower / price_upper))], which is at least 1. *)
Theorem capital_efficiency_spec :
  (forall lo hi : R, hi <= lo \/ lo <= 0 -> capital_efficiency_vs_v2 lo hi = 1) /\
  (forall lo hi : R, 0 < lo < hi ->
     capital_efficiency_vs_v2 lo hi = 1 / (1 - sqrt (lo / hi)) /\
     1 <= capital_efficiency_vs_v2 lo hi).
Proof.
  split.
  - intros lo hi Hd. unfold capital_efficiency_vs_v2.
    destruct (Rle_dec hi lo) as [|Hn]; [reflexivity|].
    destruct (Rle_dec lo 0) as [|Hn']; [reflexivity|].
    destruct Hd; contradiction.
  - intros lo hi [Hlo Hhi].
    assert (Hq0 : 0 <= lo / hi).
    { apply Rlt_le, Rdiv_lt_0_compat; lra. }
    assert (Hq1 : lo / hi < 1).
    { apply (Rmult_lt_reg_r hi); [lra|].
      unfold Rdiv. rewrite Rmult_assoc, Rinv_l, Rmult_1_r by lra. lra. }
    assert (Hs1 : sqrt (lo / hi) < 1).
    { rewrite <- sqrt_1. apply sqrt_lt_1; lra. }
    assert (Hs0 : 0 <= sqrt (lo / hi)) by apply sqrt_pos.
    assert (Hv : capital_efficiency_vs_v2 lo hi = 1 / (1 - sqrt (lo / hi))).
    { unfold capital_efficiency_vs_v2.
      destruct (Rle_dec hi lo); [lra|].
      destruct (Rle_dec lo 0); [lra|].
      destruct (Rlt_dec 0 (1 - sqrt (lo / hi))); [reflexivity | lra]. }
    split; [exact Hv|]. rewrite Hv.
    unfold Rdiv. rewrite Rmult_1_l, <- Rinv_1 at 1.
    apply Rinv_le_contravar; lra.
Qed.

Lemma capital_efficiency_spec_witness :
  capital_efficiency_vs_v2 0 1 = 1 /\
  capital_efficiency_vs_v2 1 4 = 1 / (1 - sqrt (1 / 4)) /\
  1 <= capital_efficiency_vs_v2 1 4.
Proof.
  destruct capital_efficiency_spec as [Hd Hv].
  split; [apply Hd; right; lra|].
  apply Hv; lra.
Defined.

End CapitalEfficiencyProofs.

(** * Further properties of the code *)

(** ** ABI words *)

Lemma format_word (v : Z) :
  0 <= v < Q256 ->
  exists p, list_ascii_of_string (format_hex0 64 v) = p /\ List.length p = 64%nat /\
            Forall is_digit p /\ fold_left hex_step p 0 = v.
Proof.
  intros Hv. unfold format_hex0.
  replace (v <? 0) with false by (symmetry; apply Z.ltb_ge; lia).
  destruct (to_hex_ok v ltac:(lia)) as (p & Hl & Hne & Hdig & Hval & Hhi & Hlo).
  assert (HL : String.length (to_hex v) = List.length p) by (rewrite las_length, Hl; reflexivity).
  assert (Hle : (List.length p <= 64)%nat).
  { destruct (Z.eq_dec v 0) as [->|Hv0].
    - rewrite <- HL. simpl. lia.
    - specialize (Hlo ltac:(lia)). rewrite Q256_hex in Hv.
      assert (Hlt : 16 ^ (Z.of_nat (List.length p) - 1) < 16 ^ 64) by lia.
      apply Z.pow_lt_mono_r_iff in Hlt; lia. }
  exists (repeat "0"%char (64 - List.length p) ++ p)%list.
  rewrite las_app, las_zeros, Hl, HL. split; [reflexivity|].
  split; [rewrite length_app, repeat_length; lia|].
  split.
  - apply Forall_app. split; [|exact Hdig].
    apply Forall_forall. intros c Hc. apply repeat_spec in Hc. subst c. discriminate.
  - rewrite fold_left_app, fold_hex_step_zeros. exact Hval.
Qed.

Lemma las_inj (s1 s2 : string) :
  list_ascii_of_string s1 = list_ascii_of_string s2 -> s1 = s2.
Proof.
  intros H. rewrite <- (string_of_list_ascii_of_string s1), H.
  apply string_of_list_ascii_of_string.
Qed.

Lemma int16_word (v : Z) :
  0 <= v < Q256 ->
  int16 (format_hex0 64 v) = Ok v /\ String.length (format_hex0 64 v) = 64%nat.
Proof.
  intros Hv. destruct (format_word v Hv) as (p & Hp & Hlen & Hd & Hval).
  split.
  - rewrite <- (string_of_list_ascii_of_string (format_hex0 64 v)), Hp.
    rewrite int16_digits by (try exact Hd; intros ->; discriminate).
    now rewrite Hval.
  - now rewrite las_length, Hp.
Qed.

Lemma substring_list (n m : nat) (s : string) :
  list_ascii_of_string (substring n m s) = firstn m (skipn n (list_ascii_of_string s)).
Proof.
  revert n m. induction s as [|c s IH]; intros [|n] [|m]; simpl; try reflexivity;
    rewrite ?IH; reflexivity.
Qed.

Lemma cat_list (ws : list string) :
  list_ascii_of_string (cat ws) = List.concat (map list_ascii_of_string ws).
Proof. induction ws as [|w ws IH]; simpl; [reflexivity|]. now rewrite las_app, IH. Qed.

Lemma slice_cat (ws : list string) (k a b : nat) :
  Forall (fun w => String.length w = 64%nat) ws -> (k < List.length ws)%nat ->
  (a <= b <= 64)%nat ->
  py_slice (cat ws) (k * 64 + a) (k * 64 + b) = py_slice (nth k ws "") a b.
Proof.
  intros Hw Hk Hab. unfold py_slice. apply las_inj.
  rewrite !substring_list, cat_list.
  replace (k * 64 + b - (k * 64 + a))%nat with (b - a)%nat by lia.
  revert k Hk. induction ws as [|w ws IH]; intros k Hk; simpl in Hk; [lia|].
  inversion Hw as [|? ? Hw0 Hws]; subst.
  rewrite las_length in Hw0. simpl map. simpl List.concat.
  destruct k as [|k].
  - simpl nth. rewrite skipn_app.
    replace (0 * 64 + a - List.length (list_ascii_of_string w))%nat with 0%nat by lia.
    replace (0 * 64 + a)%nat with a by lia.
    rewrite firstn_app, length_skipn.
    replace (b - a - (List.length (list_ascii_of_string w) - a))%nat with 0%nat by lia.
    simpl. now rewrite app_nil_r.
  - cbn [nth]. rewrite skipn_app, (skipn_all2 (list_ascii_of_string w)) by lia.
    rewrite app_nil_l.
    replace (S k * 64 + a - List.length (list_ascii_of_string w))%nat with (k * 64 + a)%nat by lia.
    apply IH; [exact Hws | lia].
Qed.

Lemma decode_uint_cat (ws : list string) (k : nat) :
  Forall (fun w => String.length w = 64%nat) ws -> (k < List.length ws)%nat ->
  decode_uint (cat ws) k = int16 (nth k ws "").
Proof.
  intros Hw Hk. unfold decode_uint, ABI_WORD_HEX.
  pose proof (slice_cat ws k 0 64 Hw Hk ltac:(lia)) as E.
  rewrite Nat.add_0_r in E. rewrite E.
  unfold py_slice. rewrite Nat.sub_0_r.
  assert (Hn : String.length (nth k ws "") = 64%nat).
  { apply (proj1 (Forall_forall _ _) Hw). now apply nth_In. }
  rewrite <- Hn at 1. now rewrite substring_full.
Qed.

Lemma decode_address_cat (ws : list string) (k : nat) :
  Forall (fun w => String.length w = 64%nat) ws -> (k < List.length ws)%nat ->
  decode_address (cat ws) k = "0x" ++ py_slice (nth k ws "") 24 64.
Proof.
  intros Hw Hk. unfold decode_address, ABI_WORD_HEX, ADDRESS_PAD_HEX.
  now rewrite (slice_cat ws k 24 64 Hw Hk ltac:(lia)).
Qed.

Lemma lower_facts (c : ascii) :
  is_digit c ->
  is_digit (py_lower_char c) /\ Ascii.eqb (py_lower_char c) "x" = false /\
  hex_val (py_lower_char c) = hex_val c.
Proof.
  unfold is_digit.
  destruct c as [[] [] [] [] [] [] [] []]; vm_compute;
    first [ intros H; exfalso; apply H; reflexivity
          | intros _; split; [discriminate | split; reflexivity] ].
Qed.

Lemma remove_0x_no_x (l : list ascii) :
  Forall (fun c => Ascii.eqb c "x" = false) l -> remove_0x l = l.
Proof.
  induction l as [|c l IH]; intros H; [reflexivity|].
  inversion H as [|? ? Hc Hl]; subst.
  destruct l as [|x r]; [reflexivity|].
  inversion Hl as [|? ? Hx _]; subst.
  change (remove_0x (c :: x :: r)) with
    (if Ascii.eqb c "0" && Ascii.eqb x "x" then remove_0x r else c :: remove_0x (x :: r)).
  rewrite Hx, andb_false_r, IH by exact Hl. reflexivity.
Qed.

Lemma Forall_skipn_digits (n : nat) (l : list ascii) :
  Forall is_digit l -> Forall is_digit (skipn n l).
Proof.
  revert l. induction n as [|n IH]; intros l H; [exact H|].
  destruct l as [|c l]; [constructor|]. inversion H; subst. now apply IH.
Qed.

Lemma string_app_nil (s : string) : (s ++ "")%string = s.
Proof. induction s as [|c s IH]; simpl; congruence. Qed.

Lemma decode_uint_word (v : Z) :
  0 <= v < Q256 -> decode_uint (format_hex0 64 v) 0 = Ok v.
Proof.
  intros Hv. destruct (int16_word v Hv) as [Hi Hl].
  pose proof (decode_uint_cat [format_hex0 64 v] 0) as E.
  simpl cat in E. rewrite string_app_nil in E.
  rewrite E; [exact Hi | constructor; [exact Hl | constructor] | simpl; lia].
Qed.

Lemma encode_address_digits (h : list ascii) :
  List.length h = 40%nat -> Forall is_digit h ->
  encode_address ("0x" ++ string_of_list_ascii h) =
    zeros 24 ++ string_of_list_ascii (map py_lower_char h).
Proof.
  intros Hlen Hd.
  assert (Hlow : Forall (fun c => is_digit c /\ Ascii.eqb c "x" = false) (map py_lower_char h)).
  { apply Forall_map. eapply Forall_impl; [|exact Hd].
    intros c Hc. destruct (lower_facts c Hc) as (H1 & H2 & _). auto. }
  unfold encode_address. rewrite las_app, list_ascii_of_string_of_list_ascii.
  change (list_ascii_of_string "0x") with ["0"%char; "x"%char].
  cbn [app map].
  change (remove_0x (py_lower_char "0" :: py_lower_char "x" :: map py_lower_char h))
    with (remove_0x (map py_lower_char h)).
  rewrite remove_0x_no_x by (eapply Forall_impl; [|exact Hlow]; intros c [_ Hc]; exact Hc).
  unfold zfill, ABI_WORD_HEX.
  rewrite las_length, list_ascii_of_string_of_list_ascii, length_map, Hlen.
  destruct h as [|c h]; [discriminate|].
  inversion Hlow as [|? ? [Hc _] _]; subst.
  destruct (digit_facts _ Hc) as (_ & _ & Hm & Hp & _).
  cbn [map string_of_list_ascii]. rewrite Hp, Hm. reflexivity.
Qed.

Lemma address_slice (l : list ascii) :
  List.length l = 40%nat ->
  py_slice (zeros 24 ++ string_of_list_ascii l) 24 64 = string_of_list_ascii l.
Proof.
  intros Hl. apply las_inj. unfold py_slice. rewrite substring_list, las_app, las_zeros.
  rewrite list_ascii_of_string_of_list_ascii.
  rewrite skipn_app, skipn_all2 by (rewrite repeat_length; lia).
  rewrite repeat_length, Nat.sub_diag, app_nil_l. cbn [skipn].
  apply firstn_all2. lia.
Qed.

(** X1: [encode_address] and [decode_address] are inverse on addresses:
    for ["0x"] followed by 40 hexadecimal digits in any case, the word is
    24 zeros and the lowercased digits, and decoding it returns ["0x"] and
    the lowercased digits. *)
Theorem encode_address_roundtrip (h : list ascii) :
  List.length h = 40%nat -> Forall is_digit h ->
  encode_address ("0x" ++ string_of_list_ascii h) =
    zeros 24 ++ string_of_list_ascii (map py_lower_char h) /\
  decode_address (encode_address ("0x" ++ string_of_list_ascii h)) 0 =
    "0x" ++ string_of_list_ascii (map py_lower_char h).
Proof.
  intros Hlen Hd. rewrite encode_address_digits by assumption.
  split; [reflexivity|].
  unfold decode_address, ABI_WORD_HEX, ADDRESS_PAD_HEX. cbn [Nat.mul Nat.add].
  rewrite address_slice by (rewrite length_map; exact Hlen). reflexivity.
Qed.

Lemma encode_address_roundtrip_witness :
  encode_address ("0x" ++ string_of_list_ascii (list_ascii_of_string "C36442b4a4522E871399CD717aBDD847Ab11FE88")) =
    zeros 24 ++ string_of_list_ascii (map py_lower_char (list_ascii_of_string "C36442b4a4522E871399CD717aBDD847Ab11FE88")).
Proof.
  apply (encode_address_roundtrip (list_ascii_of_string "C36442b4a4522E871399CD717aBDD847Ab11FE88"));
    [reflexivity|].
  repeat constructor; discriminate.
Defined.

(** X2: [decode_int] inverts [encode_int24] on the whole int256 range:
    for [-2^255 <= t < 2^255], decoding the word of [t] gives back [t]. *)
Theorem decode_encode_int24 (t : Z) :
  - SIGN_BIT <= t < SIGN_BIT -> decode_int (encode_int24 t) 0 = Ok t.
Proof.
  intros Ht. unfold decode_int, encode_int24, ABI_WORD_HEX.
  assert (HQ : Q256 = 2 * SIGN_BIT) by reflexivity.
  assert (HS : 0 < SIGN_BIT) by reflexivity.
  destruct (Z.ltb_spec t 0) as [Hn|Hn].
  - rewrite decode_uint_word by lia. cbn [res_bind].
    replace (Q256 + t >=? SIGN_BIT) with true by (symmetry; apply Z.geb_le; lia).
    f_equal. lia.
  - rewrite decode_uint_word by lia. cbn [res_bind].
    replace (t >=? SIGN_BIT) with false by (symmetry; rewrite Z.geb_leb; apply Z.leb_gt; lia).
    reflexivity.
Qed.

Lemma decode_encode_int24_witness :
  decode_int (encode_int24 (-887220)) 0 = Ok (-887220).
Proof. apply decode_encode_int24. unfold SIGN_BIT; lia. Defined.

(** X3: the ABI layout of a static tuple: in the concatenation of the
    words of values [v_0 ... v_n-1] (each in [0, 2^256)), [decode_uint] at
    slot [k < n] returns [v_k]. *)
Theorem decode_uint_slots (vs : list Z) (k : nat) :
  Forall (fun v => 0 <= v < Q256) vs -> (k < List.length vs)%nat ->
  decode_uint (cat (map encode_uint256 vs)) k = Ok (nth k vs 0).
Proof.
  intros Hv Hk.
  rewrite decode_uint_cat.
  - rewrite (nth_indep _ "" (encode_uint256 0)) by (rewrite length_map; exact Hk).
    rewrite map_nth. unfold encode_uint256, ABI_WORD_HEX.
    apply int16_word. apply (proj1 (Forall_forall _ _) Hv). now apply nth_In.
  - apply Forall_map. eapply Forall_impl; [|exact Hv].
    intros v Hr. apply (int16_word v Hr).
  - now rewrite length_map.
Qed.

Lemma decode_uint_slots_witness :
  decode_uint (cat (map encode_uint256 [5; 2 ^ 200; 7])) 1 = Ok (2 ^ 200).
Proof.
  apply (decode_uint_slots [5; 2 ^ 200; 7] 1); [|simpl; lia].
  repeat constructor; vm_compute; discriminate.
Defined.

(** X4: [decode_uint] on data too short for the slot: if the data ends at
    or before the slot, [int('', 16)] raises [ValueError]; if the slot is
    only partly present, the digits that are there are decoded without
    error, as a shorter number. *)
Theorem decode_uint_truncated (s : string) (k : nat) :
  ((String.length s <= k * 64)%nat -> decode_uint s k = Err ValueError) /\
  (Forall is_digit (list_ascii_of_string s) ->
   (k * 64 < String.length s < k * 64 + 64)%nat ->
   decode_uint s k = Ok (fold_left hex_step (skipn (k * 64) (list_ascii_of_string s)) 0)).
Proof.
  unfold decode_uint, ABI_WORD_HEX, py_slice.
  replace (k * 64 + 64 - k * 64)%nat with 64%nat by lia.
  split.
  - intros Hl.
    assert (E : substring (k * 64) 64 s = "").
    { apply las_inj. rewrite substring_list, skipn_all2 by (rewrite <- las_length; lia).
      now rewrite firstn_nil. }
    rewrite E. reflexivity.
  - intros Hd Hl.
    assert (E : substring (k * 64) 64 s =
                string_of_list_ascii (skipn (k * 64) (list_ascii_of_string s))).
    { apply las_inj. rewrite substring_list, list_ascii_of_string_of_list_ascii.
      apply firstn_all2. rewrite length_skipn, <- las_length. lia. }
    rewrite E. apply int16_digits.
    + intros Hn. apply (f_equal (@List.length ascii)) in Hn.
      rewrite length_skipn, <- las_length in Hn. simpl in Hn. lia.
    + now apply Forall_skipn_digits.
Qed.

Lemma decode_uint_truncated_witness :
  decode_uint "abc" 1 = Err ValueError /\
  decode_uint (zeros 64 ++ "ff") 1 = Ok 255.
Proof.
  split.
  - apply (proj1 (decode_uint_truncated "abc" 1)). simpl. lia.
  - rewrite (proj2 (decode_uint_truncated (zeros 64 ++ "ff") 1)).
    + reflexivity.
    + rewrite las_app, las_zeros. apply Forall_app. split.
      * apply Forall_forall. intros c Hc. apply repeat_spec in Hc. subst c. discriminate.
      * repeat constructor; discriminate.
    + rewrite string_length_app, zeros_length. simpl. lia.
Defined.

(** ** Transport *)

Lemma drop2_0x (w : string) : drop2 ("0x" ++ w) = w.
Proof.
  unfold drop2. cbn [String.length append].
  replace (S (S (String.length w)) - 2)%nat with (String.length w) by lia.
  apply substring_full.
Qed.

Lemma eth_call_ok (nd : node) (to data : string) (i : option Z) (raw : string) :
  nd (ReqCall (mkPayload 1 to data)) = Ok (RObj (mkRobj i (Some raw) None)) ->
  (4 <= String.length raw)%nat ->
  eth_call nd to data = ([ReqCall (mkPayload 1 to data)], Ok (drop2 raw)).
Proof.
  intros Hnd Hl. unfold eth_call, post, bindM. rewrite Hnd. cbn [r_error r_result default_str].
  replace (String.eqb raw "0x") with false
    by (symmetry; apply String.eqb_neq; intros ->; simpl in Hl; lia).
  replace (String.length raw <? 4)%nat with false by (symmetry; apply Nat.ltb_ge; lia).
  reflexivity.
Qed.

(** X5: [eth_call] returns a value exactly when the node answers with one
    object that has no ["error"] key and whose ["result"] has at least 4
    characters; the value is that result without its first two characters,
    and exactly one request is sent. A missing ["result"] raises. *)
Theorem eth_call_result (nd : node) (to data : string) (t : list request) (s : string) :
  eth_call nd to data = (t, Ok s) <->
  t = [ReqCall (mkPayload 1 to data)] /\
  exists i raw, nd (ReqCall (mkPayload 1 to data)) = Ok (RObj (mkRobj i (Some raw) None)) /\
                (4 <= String.length raw)%nat /\ s = drop2 raw.
Proof.
  split.
  - unfold eth_call, post, bindM.
    destruct (nd (ReqCall (mkPayload 1 to data))) as [[[i r e]|l]|e] eqn:Hnd;
      cbn [r_error r_result]; try discriminate.
    destruct e as [e|]; [discriminate|].
    destruct r as [raw|]; cbn [default_str]; [|discriminate].
    destruct (String.eqb raw "0x" || (String.length raw <? 4)%nat) eqn:Hc; [discriminate|].
    intros H. injection H as <- <-. split; [reflexivity|].
    exists i, raw. split; [reflexivity|]. split; [|reflexivity].
    apply orb_false_iff in Hc. apply Nat.ltb_ge. tauto.
  - intros (-> & i & raw & Hnd & Hl & ->). now apply eth_call_ok with (i := i).
Qed.

Lemma eth_call_result_witness :
  eth_call demo_node "0xA" "0x313ce567" = ([ReqCall (mkPayload 1 "0xA" "0x313ce567")], Ok (encode_uint256 18)).
Proof.
  apply (proj2 (eth_call_result demo_node "0xA" "0x313ce567" _ _)).
  split; [reflexivity|].
  exists (Some 1), ("0x" ++ encode_uint256 18). split; [reflexivity|].
  split; [vm_compute; lia | reflexivity].
Defined.

Lemma eth_call_batch_count (nd : node) (calls : list (string * string)) (r : reply) :
  nd (ReqBatch (mk_payloads 0 calls)) = Ok r ->
  exists l, eth_call_batch nd calls = ([ReqBatch (mk_payloads 0 calls)], Ok l) /\
            List.length l = reply_count r.
Proof.
  intros Hnd. unfold eth_call_batch, post, bindM. rewrite Hnd.
  destruct r as [o|l]; cbn [reply_count].
  - eexists. split; reflexivity.
  - eexists. split; [reflexivity|].
    rewrite length_map. apply Permutation_length, sort_by_id_perm.
Qed.

(** X6: [read_position] has no fallback for a batch that succeeds with
    too few results: if the node answers the batch of pool and token calls
    with fewer than 8 results (for instance one JSON-RPC error object, as a
    node without batch support does), [read_position] never returns a
    snapshot; indexing the results raises [IndexError]. *)
Theorem read_position_short_batch (nd : node) (rd : reader) (pid : Z)
    (pool_addr : option string) :
  (forall ps, exists r, nd (ReqBatch ps) = Ok r /\ (reply_count r < 8)%nat) ->
  forall t s, read_position nd rd pid pool_addr <> (t, Ok s).
Proof.
  intros Hnd t s H. unfold read_position in H.
  destruct (pid <? 0); [discriminate|].
  destruct (_ && _); [discriminate|].
  inv_binds H.
  match goal with
  | Hb : batch_with_fallback nd ?calls = (_, Ok ?res),
    H7 : lift (py_index ?res 7) = (_, Ok _) |- _ =>
      destruct (Hnd (mk_payloads 0 calls)) as (r & Hr & Hc);
      destruct (eth_call_batch_count nd calls r Hr) as (l & El & Hl);
      unfold batch_with_fallback, try_except in Hb; rewrite El in Hb;
      injection Hb as _ <-;
      unfold lift, py_index in H7;
      destruct (nth_error l 7) eqn:E7; [|discriminate]
  end.
  assert (Hlt : (7 < List.length l)%nat) by (apply nth_error_Some; congruence).
  lia.
Qed.

Lemma read_position_short_batch_witness :
  snd (read_position no_batch_node demo_reader 7 (Some demo_pool)) = Err IndexError /\
  forall t s, read_position no_batch_node demo_reader 7 (Some demo_pool) <> (t, Ok s).
Proof.
  split; [vm_compute; reflexivity|].
  apply read_position_short_batch.
  intros ps. eexists. split; [reflexivity | simpl; lia].
Defined.

(** ** Reading a position *)

Lemma uint_word (v : Z) :
  0 <= v < Q256 ->
  int16 (encode_uint256 v) = Ok v /\ String.length (encode_uint256 v) = 64%nat.
Proof. apply int16_word. Qed.

Lemma int24_word (t : Z) :
  - SIGN_BIT <= t < SIGN_BIT ->
  exists u, int16 (encode_int24 t) = Ok u /\
            (if u >=? SIGN_BIT then u - Q256 else u) = t /\
            String.length (encode_int24 t) = 64%nat.
Proof.
  intros Ht. unfold encode_int24, ABI_WORD_HEX.
  assert (HQ : Q256 = 2 * SIGN_BIT) by reflexivity.
  assert (HS : 0 < SIGN_BIT) by reflexivity.
  destruct (Z.ltb_spec t 0) as [Hn|Hn].
  - exists (Q256 + t). destruct (int16_word (Q256 + t) ltac:(lia)) as [Hi Hl].
    split; [exact Hi|]. split; [|exact Hl].
    replace (Q256 + t >=? SIGN_BIT) with true by (symmetry; apply Z.geb_le; lia). lia.
  - exists t. destruct (int16_word t ltac:(lia)) as [Hi Hl].
    split; [exact Hi|]. split; [|exact Hl].
    replace (t >=? SIGN_BIT) with false by (symmetry; rewrite Z.geb_leb; apply Z.leb_gt; lia).
    reflexivity.
Qed.

Lemma abi_address_word (a : string) :
  abi_address a ->
  String.length (encode_address a) = 64%nat /\ ("0x" ++ py_slice (encode_address a) 24 64)%string = a.
Proof.
  intros (h & -> & Hl & Hd & Hlow).
  rewrite encode_address_digits by assumption. rewrite Hlow.
  split.
  - rewrite string_length_app, zeros_length, las_length, list_ascii_of_string_of_list_ascii, Hl.
    reflexivity.
  - now rewrite address_slice.
Qed.

Lemma cat_length_ge (w : string) (ws : list string) :
  (String.length w <= String.length (cat (w :: ws)))%nat.
Proof. cbn [cat]. rewrite string_length_app. lia. Qed.

(** X7: [_read_position_nft] decodes what the position manager encodes:
    if the node returns the ABI encoding of a position whose fields fit
    their ABI types (addresses in lowercase), [read_position_nft] sends
    the one [positions(uint256)] call and returns exactly that position. *)
Theorem read_position_nft_roundtrip (nd : node) (rd : reader) (pid : Z) (p : position)
    (i : option Z) :
  abi_position p ->
  nd (ReqCall (mkPayload 1 (position_manager rd) (SEL_positions ++ encode_uint256 pid))) =
    Ok (RObj (mkRobj i (Some ("0x" ++ position_words p)) None)) ->
  read_position_nft nd rd pid =
    ([ReqCall (mkPayload 1 (position_manager rd) (SEL_positions ++ encode_uint256 pid))], Ok p).
Proof.
  intros (Hu & Ht & Ho & H0 & H1) Hnd.
  repeat rewrite Forall_cons_iff in Hu. repeat rewrite Forall_cons_iff in Ht.
  destruct Hu as (Hn & Hf & Hl & Hg0 & Hg1 & Ho0 & Ho1 & _).
  destruct Ht as (Htl & Htu & _).
  destruct (uint_word _ Hn) as [In Ln]. destruct (uint_word _ Hf) as [If Lf].
  destruct (uint_word _ Hl) as [Il Ll]. destruct (uint_word _ Hg0) as [Ig0 Lg0].
  destruct (uint_word _ Hg1) as [Ig1 Lg1]. destruct (uint_word _ Ho0) as [Io0 Lo0].
  destruct (uint_word _ Ho1) as [Io1 Lo1].
  destruct (int24_word _ Htl) as (ul & Iul & Sul & Lul).
  destruct (int24_word _ Htu) as (uu & Iuu & Suu & Luu).
  destruct (abi_address_word _ Ho) as [Lop Sop].
  destruct (abi_address_word _ H0) as [Lt0 St0].
  destruct (abi_address_word _ H1) as [Lt1 St1].
  unfold read_position_nft.
  rewrite (eth_call_ok nd _ _ i _ Hnd).
  2:{ rewrite string_length_app. unfold position_words.
      pose proof (cat_length_ge (encode_uint256 (nonce p))
                   [encode_address (operator p); encode_address (token0 p);
                    encode_address (token1 p); encode_uint24 (fee p);
                    encode_int24 (tickLower p); encode_int24 (tickUpper p);
                    encode_uint256 (liquidity p);
                    encode_uint256 (feeGrowthInside0LastX128 p);
                    encode_uint256 (feeGrowthInside1LastX128 p);
                    encode_uint256 (tokensOwed0 p); encode_uint256 (tokensOwed1 p)]).
      simpl String.length at 1. lia. }
  unfold bindM. rewrite drop2_0x. cbn beta.
  unfold position_words, decode_int.
  change (encode_uint24 (fee p)) with (encode_uint256 (fee p)).
  assert (Hw : Forall (fun w => String.length w = 64%nat)
    [encode_uint256 (nonce p); encode_address (operator p);
     encode_address (token0 p); encode_address (token1 p);
     encode_uint256 (fee p); encode_int24 (tickLower p); encode_int24 (tickUpper p);
     encode_uint256 (liquidity p);
     encode_uint256 (feeGrowthInside0LastX128 p); encode_uint256 (feeGrowthInside1LastX128 p);
     encode_uint256 (tokensOwed0 p); encode_uint256 (tokensOwed1 p)])
    by (repeat constructor; assumption).
  rewrite !decode_uint_cat, !decode_address_cat by (exact Hw || (simpl; lia)).
  cbn [nth].
  rewrite In, If, Il, Ig0, Ig1, Io0, Io1, Iul, Iuu, Sop, St0, St1.
  cbn [res_bind lift]. revert Sul Suu.
  destruct (ul >=? SIGN_BIT), (uu >=? SIGN_BIT); intros Sul Suu;
    cbn [res_bind]; rewrite Sul, Suu, app_nil_r; destruct p; reflexivity.
Qed.

Lemma read_position_nft_roundtrip_witness :
  let nd := fun q : request =>
    match q with
    | ReqCall _ => Ok (RObj (mkRobj (Some 1) (Some ("0x" ++ position_words demo_abi_position)) None))
    | _ => Err TransportError
    end in
  read_position_nft nd demo_reader 9 =
    ([ReqCall (mkPayload 1 (position_manager demo_reader) (SEL_positions ++ encode_uint256 9))],
     Ok demo_abi_position).
Proof.
  intros nd. apply read_position_nft_roundtrip with (i := Some 1); [|reflexivity].
  unfold abi_position, demo_abi_position; cbn [nonce fee liquidity feeGrowthInside0LastX128
    feeGrowthInside1LastX128 tokensOwed0 tokensOwed1 tickLower tickUpper operator token0 token1].
  split; [repeat constructor; unfold Q256; lia|].
  split; [repeat constructor; unfold SIGN_BIT; lia|].
  split; [|split].
  - exists (repeat "0"%char 40). split; [reflexivity|].
    split; [reflexivity|]. split; [repeat constructor; discriminate | reflexivity].
  - exists (list_ascii_of_string "82af49447d8a07e3bd95bd0d56f35241523fbab1").
    split; [reflexivity|]. split; [reflexivity|].
    split; [repeat constructor; discriminate | reflexivity].
  - exists (list_ascii_of_string "fd086bc7cd5c481dcc9c85ebe478a1c0b69fcbb9").
    split; [reflexivity|]. split; [reflexivity|].
    split; [repeat constructor; discriminate | reflexivity].
Defined.

(** X8: [_resolve_pool_address] returns the pool the factory reports: if
    the factory answers [getPool] with the word of an address [a], the
    result is [a], except that the zero address raises [RuntimeError]. *)
Theorem resolve_pool_address_result (nd : node) (rd : reader) (t0 t1 : string) (f : Z)
    (i : option Z) (a : string) :
  abi_address a ->
  nd (ReqCall (mkPayload 1 (factory rd)
        (SEL_getPool ++ encode_address t0 ++ encode_address t1 ++ encode_uint24 f))) =
    Ok (RObj (mkRobj i (Some ("0x" ++ encode_address a)) None)) ->
  resolve_pool_address nd rd t0 t1 f =
    ([ReqCall (mkPayload 1 (factory rd)
        (SEL_getPool ++ encode_address t0 ++ encode_address t1 ++ encode_uint24 f))],
     if String.eqb a ("0x" ++ zeros 40) then Err RuntimeError else Ok a).
Proof.
  intros Ha Hnd. destruct (abi_address_word a Ha) as [La Sa].
  unfold resolve_pool_address.
  rewrite (eth_call_ok nd _ _ i _ Hnd) by (rewrite string_length_app, La; simpl; lia).
  unfold bindM. rewrite drop2_0x. cbv beta.
  unfold decode_address, ABI_WORD_HEX, ADDRESS_PAD_HEX. cbn [Nat.mul Nat.add].
  rewrite Sa. destruct (String.eqb a ("0x" ++ zeros 40)); reflexivity.
Qed.

Lemma resolve_pool_address_result_witness :
  resolve_pool_address demo_node demo_reader demo_token0 demo_token1 500 =
    ([ReqCall (mkPayload 1 (factory demo_reader)
        (SEL_getPool ++ encode_address demo_token0 ++ encode_address demo_token1 ++
         encode_uint24 500))],
     Err RuntimeError).
Proof.
  rewrite (resolve_pool_address_result demo_node demo_reader demo_token0 demo_token1 500
             (Some 1) ("0x" ++ zeros 40)).
  - reflexivity.
  - exists (repeat "0"%char 40). split; [reflexivity|].
    split; [reflexivity|]. split; [repeat constructor; discriminate | reflexivity].
  - reflexivity.
Defined.

(** X9: uncollected fees are never negative: whatever the tick data, the
    raw fee amounts [_compute_fees] returns (before scaling by the
    decimals) are at least 0 when the position's liquidity and
    [tokensOwed] are. *)
Theorem compute_fees_nonneg (pos : position) (current_tick g0 g1 : Z)
    (tl tu : string) (d0 d1 : Z) :
  0 <= liquidity pos -> 0 <= tokensOwed0 pos -> 0 <= tokensOwed1 pos ->
  forall f, compute_fees pos current_tick g0 g1 tl tu d0 d1 = Ok f ->
  0 <= raw (fees0 f) /\ 0 <= raw (fees1 f).
Proof.
  intros Hl H0 H1 f Hf. unfold compute_fees in Hf.
  destruct (compute_fees_body pos current_tick g0 g1 tl tu d0 d1) as [f'|e] eqn:E.
  - injection Hf as <-. unfold compute_fees_body in E.
    destruct (_ || _); [discriminate|].
    destruct (decode_uint tl 2); [|discriminate]. cbn [res_bind] in E.
    destruct (decode_uint tl 3); [|discriminate]. cbn [res_bind] in E.
    destruct (decode_uint tu 2); [|discriminate]. cbn [res_bind] in E.
    destruct (decode_uint tu 3); [|discriminate]. cbn [res_bind] in E.
    cbv zeta in E.
    destruct (scale_int _ d0) as [s0|] eqn:S0; [|discriminate]. cbn [res_bind] in E.
    destruct (scale_int _ d1) as [s1|] eqn:S1; [|discriminate]. cbn [res_bind] in E.
    injection E as <-. apply scale_int_raw in S0, S1. subst s0 s1.
    unfold fees_from_outside. cbn [fees0 fees1 raw].
    assert (HQ : 0 < Q256) by reflexivity. assert (HQ' : 0 < Q128) by reflexivity.
    split; apply Z.add_nonneg_nonneg; try assumption;
      apply Z.div_pos; try assumption;
      apply Z.mul_nonneg_nonneg; try assumption; apply Z.mod_pos_bound; exact HQ.
  - unfold fees_from_outside, fees_fallback in Hf.
    destruct (scale_int (tokensOwed0 pos) d0) as [s0|] eqn:S0; [|discriminate].
    cbn [res_bind] in Hf.
    destruct (scale_int (tokensOwed1 pos) d1) as [s1|] eqn:S1; [|discriminate].
    injection Hf as <-. apply scale_int_raw in S0, S1. subst s0 s1.
    cbn. split; assumption.
Qed.

Lemma compute_fees_nonneg_witness :
  compute_fees demo_position 50 1000 2000 (tick_words 1 0 5 7) "" 18 6 =
    Ok (mkFees (mkScaled 3 18) (mkScaled 4 6)) /\
  0 <= raw (fees0 (mkFees (mkScaled 3 18) (mkScaled 4 6))).
Proof.
  assert (E : compute_fees demo_position 50 1000 2000 (tick_words 1 0 5 7) "" 18 6 =
              Ok (mkFees (mkScaled 3 18) (mkScaled 4 6))) by (vm_compute; reflexivity).
  split; [exact E|].
  apply (compute_fees_nonneg demo_position 50 1000 2000 (tick_words 1 0 5 7) "" 18 6);
    [vm_compute; discriminate .. | exact E].
Defined.

(** ** What the reader sends *)

Lemma bindM_Forall {A B} (P : request -> Prop) (m : M A) (f : A -> M B) :
  Forall P (fst m) -> (forall a, snd m = Ok a -> Forall P (fst (f a))) ->
  Forall P (fst (bindM m f)).
Proof.
  destruct m as [t [a|e]]; intros Hm Hf; simpl; [|exact Hm].
  specialize (Hf a eq_refl). destruct (f a) as [t' r']. simpl in *.
  apply Forall_app. auto.
Qed.

Lemma get_block_number_trace (nd : node) : fst (get_block_number nd) = [ReqBlockNumber].
Proof.
  unfold get_block_number, eth_block_number, try_except, post, bindM.
  destruct (nd ReqBlockNumber) as [[[i r e]|l]|e]; cbn; try reflexivity.
  - destruct e; [reflexivity|]. destruct r as [s|]; cbn; [|reflexivity].
    destruct (int16 s); reflexivity.
Qed.

Lemma batch_with_fallback_trace (nd : node) (calls : list (string * string)) :
  fst (batch_with_fallback nd calls) = [ReqBatch (mk_payloads 0 calls)] \/
  fst (batch_with_fallback nd calls) = ReqBatch (mk_payloads 0 calls) :: map single_request calls.
Proof.
  unfold batch_with_fallback, try_except, eth_call_batch, post, bindM.
  destruct (nd (ReqBatch (mk_payloads 0 calls))) as [[o|l]|e]; cbn; [left; reflexivity | left; reflexivity|].
  right. rewrite sequential_calls_spec. reflexivity.
Qed.

Lemma mk_payloads_data (i : Z) (calls : list (string * string)) :
  map p_data (mk_payloads i calls) = map snd calls.
Proof.
  revert i. induction calls as [|[to data] calls IH]; intros i; [reflexivity|].
  simpl. now rewrite IH.
Qed.

Lemma batch_with_fallback_no_get_pool (nd : node) (calls : list (string * string)) :
  Forall (fun c => String.prefix SEL_getPool (snd c) = false) calls ->
  Forall (fun q => get_pool_call q = false) (fst (batch_with_fallback nd calls)).
Proof.
  intros Hc.
  assert (Hb : get_pool_call (ReqBatch (mk_payloads 0 calls)) = false).
  { cbn [get_pool_call]. apply Bool.not_true_iff_false. rewrite existsb_exists.
    intros (p & Hp & Hpre).
    apply (in_map p_data) in Hp. rewrite mk_payloads_data, in_map_iff in Hp.
    destruct Hp as (c & Hcd & Hin).
    rewrite <- Hcd, (proj1 (Forall_forall _ _) Hc c Hin) in Hpre.
    discriminate. }
  destruct (batch_with_fallback_trace nd calls) as [E|E]; rewrite E.
  - constructor; [exact Hb | constructor].
  - constructor; [exact Hb|].
    apply Forall_map. eapply Forall_impl; [|exact Hc].
    intros [to data] H. exact H.
Qed.

(** X10: when [read_position] is given a non-empty [pool_address], it
    never asks the factory for a pool: no request it sends, alone or in a
    batch, carries [getPool] calldata, whatever the node answers. *)
Theorem read_position_supplied_pool_no_get_pool (nd : node) (rd : reader) (pid : Z)
    (pool_addr : option string) :
  py_truthy pool_addr = true ->
  Forall (fun q => get_pool_call q = false) (fst (read_position nd rd pid pool_addr)).
Proof.
  intros Hp. unfold read_position.
  destruct (pid <? 0); [constructor|].
  destruct (_ && _); [constructor|].
  rewrite Hp.
  apply bindM_Forall; [rewrite get_block_number_trace; repeat constructor|intros bn _].
  apply bindM_Forall.
  { unfold read_position_nft. apply bindM_Forall; [|intros; constructor].
    rewrite eth_call_trace. repeat constructor. }
  intros pos _.
  apply bindM_Forall; [constructor|intros pool _].
  cbv zeta.
  apply bindM_Forall.
  { apply batch_with_fallback_no_get_pool. repeat constructor. }
  intros br _.
  repeat (apply bindM_Forall; [constructor|intros ? _]).
  apply bindM_Forall.
  { apply batch_with_fallback_no_get_pool. repeat constructor. }
  intros tb _.
  repeat (apply bindM_Forall; [constructor|intros ? _]).
  constructor.
Qed.

Lemma read_position_supplied_pool_no_get_pool_witness :
  Forall (fun q => get_pool_call q = false)
    (fst (read_position demo_node demo_reader 7 (Some demo_pool))) /\
  existsb get_pool_call (fst (read_position demo_node demo_reader 7 None)) = true.
Proof.
  split.
  - apply read_position_supplied_pool_no_get_pool. reflexivity.
  - vm_compute. reflexivity.
Defined.

(** ** Uniswap V3 and risk maths *)

Module DefiMathProofs.
Import DefiMath.
Local Open Scope R_scope.

(** [round(x, n)] is monotone and leaves integers unchanged. *)
Lemma Int_part_IZR (z : Z) : Int_part (IZR z) = z.
Proof.
  unfold Int_part. rewrite <- (tech_up (IZR z) (z + 1)).
  - ring.
  - rewrite plus_IZR. simpl. lra.
  - rewrite plus_IZR. simpl. lra.
Qed.

Lemma Int_part_bounds (x : R) : IZR (Int_part x) <= x < IZR (Int_part x) + 1.
Proof. destruct (base_Int_part x). lra. Qed.

Lemma Int_part_mono (x y : R) : x <= y -> (Int_part x <= Int_part y)%Z.
Proof.
  intros Hxy. destruct (Int_part_bounds x), (Int_part_bounds y).
  assert (IZR (Int_part x) < IZR (Int_part y + 1)) by (rewrite plus_IZR; simpl; lra).
  apply lt_IZR in H3. lia.
Qed.

Lemma round_half_even_IZR (z : Z) : round_half_even (IZR z) = z.
Proof.
  unfold round_half_even. rewrite Int_part_IZR.
  destruct (Rlt_dec (IZR z - IZR z) (1 / 2)); [reflexivity | lra].
Qed.

Lemma round_half_even_mono (x y : R) : x <= y -> (round_half_even x <= round_half_even y)%Z.
Proof.
  intros Hxy. unfold round_half_even.
  pose proof (Int_part_mono x y Hxy) as Hm.
  destruct (Int_part_bounds x) as [Hx1 Hx2], (Int_part_bounds y) as [Hy1 Hy2].
  set (fx := Int_part x) in *. set (fy := Int_part y) in *.
  destruct (Z.eq_dec fx fy) as [He|Hne].
  - rewrite <- He in *.
    destruct (Rlt_dec (x - IZR fx) (1 / 2)), (Rlt_dec (y - IZR fx) (1 / 2));
      try destruct (Rlt_dec (1 / 2) (x - IZR fx));
      try destruct (Rlt_dec (1 / 2) (y - IZR fx));
      try destruct (Z.even fx); try lia; lra.
  - assert (fx < fy)%Z by lia.
    destruct (Rlt_dec (x - IZR fx) (1 / 2)), (Rlt_dec (y - IZR fy) (1 / 2));
      try destruct (Rlt_dec (1 / 2) (x - IZR fx));
      try destruct (Rlt_dec (1 / 2) (y - IZR fy));
      try destruct (Z.even fx); try destruct (Z.even fy); lia.
Qed.

Lemma pow10_pos (n : nat) : 0 < 10 ^ n.
Proof. apply pow_lt. lra. Qed.

Lemma py_round_mono (x y : R) (n : nat) : x <= y -> py_round x n <= py_round y n.
Proof.
  intros Hxy. unfold py_round. pose proof (pow10_pos n).
  apply Rmult_le_compat_r; [apply Rlt_le, Rinv_0_lt_compat; lra|].
  apply IZR_le, round_half_even_mono. apply Rmult_le_compat_r; lra.
Qed.

Lemma py_round_IZR (z : Z) (n : nat) : py_round (IZR z) n = IZR z.
Proof.
  unfold py_round. pose proof (pow10_pos n).
  replace (IZR z * 10 ^ n) with (IZR (z * 10 ^ Z.of_nat n)).
  - rewrite round_half_even_IZR, mult_IZR, <- pow_IZR. field. lra.
  - rewrite mult_IZR, <- pow_IZR. reflexivity.
Qed.

Lemma py_round_between (a b : Z) (x : R) (n : nat) :
  IZR a <= x <= IZR b -> IZR a <= py_round x n <= IZR b.
Proof.
  intros [Ha Hb]. rewrite <- (py_round_IZR a n), <- (py_round_IZR b n) at 1.
  split; apply py_round_mono; assumption.
Qed.


Lemma TICK_BASE_gt_1 : 1 < TICK_BASE.
Proof. unfold TICK_BASE. lra. Qed.

Lemma ln_TICK_BASE_pos : 0 < ln TICK_BASE.
Proof. rewrite <- ln_1. apply ln_increasing; [lra | apply TICK_BASE_gt_1]. Qed.

Lemma py_log_pos (x : R) : 0 < x -> py_log x = FOk (ln x).
Proof. intros H. unfold py_log. destruct (Rle_dec x 0); [lra | reflexivity]. Qed.

Lemma py_sqrt_nonneg (x : R) : 0 <= x -> py_sqrt x = FOk (sqrt x).
Proof. intros H. unfold py_sqrt. destruct (Rlt_dec x 0); [lra | reflexivity]. Qed.

Lemma py_sqrt_neg (x : R) : x < 0 -> py_sqrt x = FErr ValueError.
Proof. intros H. unfold py_sqrt. destruct (Rlt_dec x 0); [reflexivity | lra]. Qed.

Lemma py_div_nonzero (a b : R) : b <> 0 -> py_div a b = FOk (a / b).
Proof. intros H. unfold py_div. destruct (Req_EM_T b 0); [contradiction | reflexivity]. Qed.

Ltac fsimpl :=
  repeat first
    [ rewrite py_sqrt_nonneg by lra | rewrite py_div_nonzero by lra
    | progress cbn [fbind] ].

Lemma py_div_zero (a : R) : py_div a 0 = FErr ZeroDivisionError.
Proof. unfold py_div. destruct (Req_EM_T 0 0); [reflexivity | lra]. Qed.

(** X11: [price_to_tick] raises [ValueError] for every price at or below 0,
    and for every positive price returns a tick in [-887272, 887272]. *)
Theorem price_to_tick_range :
  (forall price, price <= 0 -> price_to_tick price = FErr ValueError) /\
  (forall price, 0 < price ->
     exists t, price_to_tick price = FOk t /\ (MIN_TICK <= t <= MAX_TICK)%Z).
Proof.
  split.
  - intros p Hp. unfold price_to_tick. destruct (Rle_dec p 0); [reflexivity | lra].
  - intros p Hp. unfold price_to_tick. destruct (Rle_dec p 0); [lra|].
    pose proof TICK_BASE_gt_1. pose proof ln_TICK_BASE_pos.
    rewrite py_log_pos, py_log_pos by lra. cbn [fbind].
    rewrite py_div_nonzero by lra. cbn [fbind].
    eexists; split; [reflexivity|].
    set (c := Rmax _ _).
    assert (Hlo : IZR MIN_TICK <= c) by apply Rmax_l.
    assert (Hhi : c <= IZR MAX_TICK).
    { apply Rmax_lub; [apply IZR_le; unfold MIN_TICK, MAX_TICK; lia | apply Rmin_l]. }
    unfold py_floor. split.
    + rewrite <- (Int_part_IZR MIN_TICK). apply Int_part_mono. exact Hlo.
    + rewrite <- (Int_part_IZR MAX_TICK). apply Int_part_mono. exact Hhi.
Qed.

Lemma price_to_tick_range_witness :
  price_to_tick 0 = FErr ValueError /\
  exists t, price_to_tick 1 = FOk t /\ (MIN_TICK <= t <= MAX_TICK)%Z.
Proof.
  destruct price_to_tick_range as [H1 H2].
  split; [apply H1; lra | apply H2; lra].
Defined.

Lemma tick_to_price_Rpower (t : Z) :
  tick_to_price t = Rpower TICK_BASE (IZR (Z.max MIN_TICK (Z.min MAX_TICK t))).
Proof. unfold tick_to_price. apply powerRZ_Rpower. pose proof TICK_BASE_gt_1. lra. Qed.

(** X12: [tick_to_price] is positive and nondecreasing in the tick, strictly
    increasing between -887272 and 887272, and constant beyond those
    bounds (the tick is clamped). *)
Theorem tick_to_price_monotone :
  (forall t, 0 < tick_to_price t) /\
  (forall t1 t2, (t1 <= t2)%Z -> tick_to_price t1 <= tick_to_price t2) /\
  (forall t1 t2, (MIN_TICK <= t1)%Z -> (t1 < t2)%Z -> (t2 <= MAX_TICK)%Z ->
     tick_to_price t1 < tick_to_price t2) /\
  (forall t, (MAX_TICK <= t)%Z -> tick_to_price t = tick_to_price MAX_TICK) /\
  (forall t, (t <= MIN_TICK)%Z -> tick_to_price t = tick_to_price MIN_TICK).
Proof.
  pose proof TICK_BASE_gt_1 as Hb.
  split; [|split; [|split; [|split]]].
  - intros t. rewrite tick_to_price_Rpower. apply exp_pos.
  - intros t1 t2 H. rewrite !tick_to_price_Rpower.
    destruct (Z.eq_dec (Z.max MIN_TICK (Z.min MAX_TICK t1))
                       (Z.max MIN_TICK (Z.min MAX_TICK t2))) as [E|E].
    + rewrite E. lra.
    + apply Rlt_le, Rpower_lt; [exact Hb|]. apply IZR_lt. lia.
  - intros t1 t2 H1 H2 H3. rewrite !tick_to_price_Rpower.
    apply Rpower_lt; [exact Hb|]. apply IZR_lt. unfold MIN_TICK, MAX_TICK in *. lia.
  - intros t H. unfold tick_to_price. f_equal. unfold MIN_TICK, MAX_TICK in *. lia.
  - intros t H. unfold tick_to_price. f_equal. unfold MIN_TICK, MAX_TICK in *. lia.
Qed.

Lemma tick_to_price_monotone_witness :
  0 < tick_to_price 0 /\ tick_to_price (-5) <= tick_to_price 3 /\
  tick_to_price 1 < tick_to_price 2 /\
  tick_to_price 1000000 = tick_to_price MAX_TICK /\
  tick_to_price (-1000000) = tick_to_price MIN_TICK.
Proof.
  destruct tick_to_price_monotone as [H1 [H2 [H3 [H4 H5]]]].
  split; [apply H1|]. split; [apply H2; lia|]. split; [apply H3; unfold MIN_TICK, MAX_TICK; lia|].
  split; [apply H4; unfold MAX_TICK; lia | apply H5; unfold MIN_TICK; lia].
Defined.


Lemma sqrt_pos_lt (x : R) : 0 < x -> 0 < sqrt x.
Proof. apply sqrt_lt_R0. Qed.




(** X13: [calculate_liquidity] raises [ValueError] when a price is negative;
    for nonnegative prices it raises [ZeroDivisionError] exactly when
    [price_current <= price_lower] and [price_lower] or [price_upper] is
    0, and returns a value otherwise. *)
Theorem calculate_liquidity_errors :
  (forall a0 a1 pc pl pu, pc < 0 \/ pl < 0 \/ pu < 0 ->
     calculate_liquidity a0 a1 pc pl pu = FErr ValueError) /\
  (forall a0 a1 pc pl pu, 0 <= pc -> 0 <= pl -> 0 <= pu ->
     (pc <= pl /\ (pl = 0 \/ pu = 0) ->
        calculate_liquidity a0 a1 pc pl pu = FErr ZeroDivisionError) /\
     (~ (pc <= pl /\ (pl = 0 \/ pu = 0)) ->
        exists l, calculate_liquidity a0 a1 pc pl pu = FOk l)).
Proof.
  split.
  - intros a0 a1 pc pl pu H. unfold calculate_liquidity.
    destruct (Rlt_dec pc 0) as [Hc|Hc]; [rewrite py_sqrt_neg by exact Hc; reflexivity|].
    rewrite py_sqrt_nonneg by lra. cbn [fbind].
    destruct (Rlt_dec pl 0) as [Hl|Hl]; [rewrite py_sqrt_neg by exact Hl; reflexivity|].
    rewrite py_sqrt_nonneg by lra. cbn [fbind].
    rewrite py_sqrt_neg by lra. reflexivity.
  - intros a0 a1 pc pl pu Hc Hl Hu. unfold calculate_liquidity.
    rewrite !py_sqrt_nonneg by assumption. cbn [fbind]. split.
    + intros [Hle [E|E]]; subst.
      * destruct (Rle_dec pc 0); [|lra]. rewrite sqrt_0, py_div_zero. reflexivity.
      * destruct (Rle_dec pc pl); [|lra].
        destruct (Req_EM_T pl 0) as [E|E].
        -- subst. rewrite sqrt_0, py_div_zero. reflexivity.
        -- pose proof (sqrt_pos_lt pl ltac:(lra)).
           rewrite py_div_nonzero by lra. cbn [fbind].
           rewrite sqrt_0, py_div_zero. reflexivity.
    + intros Hn.
      destruct (Rle_dec pc pl) as [Hcl|Hcl].
      * assert (0 < pl /\ 0 < pu) as [Hl' Hu'].
        { destruct (Req_EM_T pl 0), (Req_EM_T pu 0); try tauto; lra. }
        pose proof (sqrt_pos_lt pl Hl'). pose proof (sqrt_pos_lt pu Hu').
        fsimpl. destruct (Rlt_dec 0 _); fsimpl; eexists; reflexivity.
      * destruct (Rle_dec pu pc) as [Huc|Huc].
        -- destruct (Rlt_dec 0 _); fsimpl; eexists; reflexivity.
        -- pose proof (sqrt_pos_lt pc ltac:(lra)). pose proof (sqrt_pos_lt pu ltac:(lra)).
           fsimpl.
           destruct (Rlt_dec 0 (1 / sqrt pc - 1 / sqrt pu)); fsimpl;
           destruct (Rlt_dec 0 (sqrt pc - sqrt pl)); fsimpl; eexists; reflexivity.
Qed.

Lemma calculate_liquidity_errors_witness :
  calculate_liquidity 1 1 (-1) 1 4 = FErr ValueError /\
  calculate_liquidity 1 1 0 0 4 = FErr ZeroDivisionError /\
  exists l, calculate_liquidity 1 1 2 1 4 = FOk l.
Proof.
  destruct calculate_liquidity_errors as [H1 H2].
  split; [apply H1; lra|]. split.
  - apply (H2 1 1 0 0 4); lra.
  - apply (H2 1 1 2 1 4); lra.
Defined.

(** X14: For nonnegative amounts, a nonnegative current price and positive
    bounds, [calculate_liquidity] returns a nonnegative liquidity. *)
Theorem calculate_liquidity_nonneg (a0 a1 pc pl pu : R) :
  0 <= a0 -> 0 <= a1 -> 0 <= pc -> 0 < pl -> 0 < pu ->
  exists l, calculate_liquidity a0 a1 pc pl pu = FOk l /\ 0 <= l.
Proof.
  intros H0 H1 Hc Hl Hu. unfold calculate_liquidity.
  pose proof (sqrt_pos_lt pl Hl). pose proof (sqrt_pos_lt pu Hu).
  fsimpl.
  assert (Hdiv : forall a d, 0 <= a -> 0 < d -> 0 <= a / d).
  { intros a d Ha Hd. unfold Rdiv. apply Rmult_le_pos; [lra | apply Rlt_le, Rinv_0_lt_compat, Hd]. }
  destruct (Rle_dec pc pl).
  - destruct (Rlt_dec 0 _); fsimpl; eexists; split; try reflexivity; first [apply Hdiv; lra | lra].
  - destruct (Rle_dec pu pc).
    + destruct (Rlt_dec 0 _); fsimpl; eexists; split; try reflexivity; first [apply Hdiv; lra | lra].
    + pose proof (sqrt_pos_lt pc ltac:(lra)). fsimpl.
      set (l0 := if Rlt_dec 0 (1 / sqrt pc - 1 / sqrt pu)
                 then py_div a0 (1 / sqrt pc - 1 / sqrt pu) else FOk 0).
      assert (H0' : exists v, l0 = FOk v /\ 0 <= v).
      { unfold l0. destruct (Rlt_dec 0 (1 / sqrt pc - 1 / sqrt pu)); fsimpl; eexists; split; try reflexivity;
          first [apply Hdiv; lra | lra]. }
      set (l1 := if Rlt_dec 0 (sqrt pc - sqrt pl)
                 then py_div a1 (sqrt pc - sqrt pl) else FOk 0).
      assert (H1' : exists v, l1 = FOk v /\ 0 <= v).
      { unfold l1. destruct (Rlt_dec 0 (sqrt pc - sqrt pl)); fsimpl; eexists; split; try reflexivity;
          first [apply Hdiv; lra | lra]. }
      destruct H0' as [v0 [-> Hv0]], H1' as [v1 [-> Hv1]]. cbn [fbind].
      eexists; split; [reflexivity|].
      destruct (Rlt_dec 0 v0), (Rlt_dec 0 v1).
      * apply Rmin_glb; lra.
      * apply (Rle_trans _ v0); [lra | apply Rmax_l].
      * apply (Rle_trans _ v0); [lra | apply Rmax_l].
      * apply (Rle_trans _ v0); [lra | apply Rmax_l].
Qed.

Lemma calculate_liquidity_nonneg_witness :
  exists l, calculate_liquidity 1 1 2 1 4 = FOk l /\ 0 <= l.
Proof. apply calculate_liquidity_nonneg; lra. Defined.

(** X15: [calculate_liquidity] ignores [amount1] when
    [price_current <= price_lower], and ignores [amount0] when
    [price_lower < price_current] and [price_current >= price_upper]. *)
Theorem calculate_liquidity_one_sided :
  (forall a0 a1 a1' pc pl pu, pc <= pl ->
     calculate_liquidity a0 a1 pc pl pu = calculate_liquidity a0 a1' pc pl pu) /\
  (forall a0 a0' a1 pc pl pu, pl < pc -> pu <= pc ->
     calculate_liquidity a0 a1 pc pl pu = calculate_liquidity a0' a1 pc pl pu).
Proof.
  split.
  - intros a0 a1 a1' pc pl pu H. unfold calculate_liquidity.
    destruct (py_sqrt pc); [|reflexivity]. cbn [fbind].
    destruct (py_sqrt pl); [|reflexivity]. cbn [fbind].
    destruct (py_sqrt pu); [|reflexivity]. cbn [fbind].
    destruct (Rle_dec pc pl); [reflexivity | lra].
  - intros a0 a0' a1 pc pl pu H1 H2. unfold calculate_liquidity.
    destruct (py_sqrt pc); [|reflexivity]. cbn [fbind].
    destruct (py_sqrt pl); [|reflexivity]. cbn [fbind].
    destruct (py_sqrt pu); [|reflexivity]. cbn [fbind].
    destruct (Rle_dec pc pl); [lra|].
    destruct (Rle_dec pu pc); [reflexivity | lra].
Qed.

Lemma calculate_liquidity_one_sided_witness :
  calculate_liquidity 1 1 0 1 4 = calculate_liquidity 1 7 0 1 4 /\
  calculate_liquidity 1 1 5 1 4 = calculate_liquidity 9 1 5 1 4.
Proof.
  destruct calculate_liquidity_one_sided as [H1 H2].
  split; [apply H1; lra | apply H2; lra].
Defined.



Lemma div_nonneg (a d : R) : 0 <= a -> 0 < d -> 0 <= a / d.
Proof. intros Ha Hd. unfold Rdiv. apply Rmult_le_pos; [lra | apply Rlt_le, Rinv_0_lt_compat, Hd]. Qed.

Lemma py_round_ge (a : Z) (x : R) (n : nat) : IZR a <= x -> IZR a <= py_round x n.
Proof.
  intros H. apply (Rle_trans _ (py_round (IZR a) n)).
  - rewrite py_round_IZR. lra.
  - apply py_round_mono, H.
Qed.

Lemma py_round_le (b : Z) (x : R) (n : nat) : x <= IZR b -> py_round x n <= IZR b.
Proof.
  intros H. apply (Rle_trans _ (py_round (IZR b) n)).
  - apply py_round_mono, H.
  - rewrite py_round_IZR. lra.
Qed.

Lemma py_round_nonneg (x : R) (n : nat) : 0 <= x -> 0 <= py_round x n.
Proof. intros H. rewrite <- (py_round_IZR 0 n). apply py_round_mono, H. Qed.

(** [2 sqrt r / (1 + r)] lies in [0, 1]. *)
Lemma hodl_ratio_bounds (r : R) : 0 <= r -> 0 <= 2 * sqrt r / (1 + r) <= 1.
Proof.
  intros Hr. pose proof (sqrt_pos r) as Hs. pose proof (sqrt_sqrt r Hr) as Hss.
  split.
  - apply div_nonneg; lra.
  - apply (Rmult_le_reg_r (1 + r)); [lra|].
    unfold Rdiv. rewrite Rmult_assoc, Rinv_l, Rmult_1_r, Rmult_1_l by lra.
    pose proof (Rle_0_sqr (sqrt r - 1)) as Hsq. unfold Rsqr in Hsq. nra.
Qed.

(** X16: [estimate_fee_apy] returns zeros when the pool liquidity or the
    position value is at or below 0, and otherwise, for nonnegative volume,
    fee tier and position liquidity, returns nonnegative daily fees, annual
    fees and APY. *)
Theorem estimate_fee_apy_nonneg :
  (forall v f pl tl pv, tl <= 0 \/ pv <= 0 ->
     estimate_fee_apy v f pl tl pv = FOk (mkFeeApy 0 0 0)) /\
  (forall v f pl tl pv, 0 <= v -> 0 <= f -> 0 <= pl -> 0 < tl -> 0 < pv ->
     exists r, estimate_fee_apy v f pl tl pv = FOk r /\
       0 <= daily_fees_usd r /\ 0 <= annual_fees_usd r /\ 0 <= apy_pct r).
Proof.
  split.
  - intros v f pl tl pv H. unfold estimate_fee_apy.
    destruct (Rle_dec tl 0); [reflexivity|].
    destruct (Rle_dec pv 0); [reflexivity | lra].
  - intros v f pl tl pv Hv Hf Hp Htl Hpv. unfold estimate_fee_apy.
    destruct (Rle_dec tl 0); [lra|]. destruct (Rle_dec pv 0); [lra|].
    fsimpl. eexists; split; [reflexivity|]. cbn.
    assert (0 <= v * f * (pl / tl)).
    { apply Rmult_le_pos; [apply Rmult_le_pos; lra | apply div_nonneg; lra]. }
    repeat split; apply py_round_nonneg; try lra.
    apply Rmult_le_pos; [apply div_nonneg|]; lra.
Qed.

Lemma estimate_fee_apy_nonneg_witness :
  estimate_fee_apy 1000000 (5 / 10000) 10 0 5000 = FOk (mkFeeApy 0 0 0) /\
  exists r, estimate_fee_apy 1000000 (5 / 10000) 10 1000 5000 = FOk r /\
    0 <= daily_fees_usd r /\ 0 <= annual_fees_usd r /\ 0 <= apy_pct r.
Proof.
  destruct estimate_fee_apy_nonneg as [H1 H2].
  split; [apply H1; lra | apply H2; lra].
Defined.

(** X17: [impermanent_loss] returns 0 when [price_initial <= 0], raises
    [ValueError] for a negative current price, returns a value in
    [-100, 0] for a nonnegative one, and returns 0 when the price is
    unchanged. *)
Theorem impermanent_loss_bounds :
  (forall pi pc, pi <= 0 -> impermanent_loss pi pc = FOk 0) /\
  (forall pi pc, 0 < pi -> pc < 0 -> impermanent_loss pi pc = FErr ValueError) /\
  (forall pi pc, 0 < pi -> 0 <= pc ->
     exists il, impermanent_loss pi pc = FOk il /\ -100 <= il <= 0) /\
  (forall p, 0 < p -> impermanent_loss p p = FOk 0).
Proof.
  split; [|split; [|split]].
  - intros pi pc H. unfold impermanent_loss. destruct (Rle_dec pi 0); [reflexivity | lra].
  - intros pi pc Hi Hc. unfold impermanent_loss. destruct (Rle_dec pi 0); [lra|].
    fsimpl. rewrite py_sqrt_neg; [reflexivity|].
    unfold Rdiv. apply Rmult_neg_pos; [lra | apply Rinv_0_lt_compat; lra].
  - intros pi pc Hi Hc. unfold impermanent_loss. destruct (Rle_dec pi 0); [lra|].
    assert (Hr : 0 <= pc / pi) by (apply div_nonneg; lra).
    fsimpl. eexists; split; [reflexivity|].
    pose proof (hodl_ratio_bounds (pc / pi) Hr).
    apply (py_round_between (-100) 0). lra.
  - intros p Hp. unfold impermanent_loss. destruct (Rle_dec p 0); [lra|].
    rewrite py_div_nonzero by lra. cbn [fbind].
    replace (p / p) with 1 by (field; lra).
    fsimpl. rewrite sqrt_1. fsimpl.
    replace ((2 * 1 / (1 + 1) - 1) * 100) with (IZR 0) by lra.
    rewrite py_round_IZR. reflexivity.
Qed.

Lemma impermanent_loss_bounds_witness :
  impermanent_loss 0 5 = FOk 0 /\ impermanent_loss 2000 (-1) = FErr ValueError /\
  (exists il, impermanent_loss 2000 3000 = FOk il /\ -100 <= il <= 0) /\
  impermanent_loss 2000 2000 = FOk 0.
Proof.
  destruct impermanent_loss_bounds as [H1 [H2 [H3 H4]]].
  split; [apply H1; lra|]. split; [apply H2; lra|].
  split; [apply H3; lra | apply H4; lra].
Defined.

(** [1 - sqrt (lo / hi)] lies in (0, 1] when [0 < lo < hi]. *)
Lemma ce_denom_bounds (lo hi : R) : 0 < lo -> lo < hi ->
  0 < 1 - sqrt (lo / hi) <= 1.
Proof.
  intros Hlo Hhi.
  assert (Hq0 : 0 <= lo / hi) by (apply div_nonneg; lra).
  assert (Hq1 : lo / hi < 1).
  { apply (Rmult_lt_reg_r hi); [lra|].
    unfold Rdiv. rewrite Rmult_assoc, Rinv_l, Rmult_1_r by lra. lra. }
  assert (Hs1 : sqrt (lo / hi) < 1) by (rewrite <- sqrt_1; apply sqrt_lt_1; lra).
  pose proof (sqrt_pos (lo / hi)). lra.
Qed.

Lemma one_over_ge_1 (d : R) : 0 < d <= 1 -> 1 <= 1 / d.
Proof.
  intros [H0 H1]. unfold Rdiv. rewrite Rmult_1_l, <- Rinv_1.
  apply Rinv_le_contravar; lra.
Qed.

(** X18: [impermanent_loss_v3] returns its defaults for degenerate inputs,
    raises [ValueError] for a negative current price, and otherwise
    returns [-100 <= il_v3_pct <= il_v2_pct <= 0] and a capital efficiency
    of at least 1. *)
Theorem impermanent_loss_v3_bounds :
  (forall pi pc pl pu, pi <= 0 \/ pl <= 0 \/ pu <= pl ->
     impermanent_loss_v3 pi pc pl pu = FOk (mkILv3 0 0 1 1)) /\
  (forall pi pc pl pu, 0 < pi -> 0 < pl -> pl < pu -> pc < 0 ->
     impermanent_loss_v3 pi pc pl pu = FErr ValueError) /\
  (forall pi pc pl pu, 0 < pi -> 0 < pl -> pl < pu -> 0 <= pc ->
     exists r, impermanent_loss_v3 pi pc pl pu = FOk r /\
       -100 <= il_v3_pct r <= il_v2_pct r /\ il_v2_pct r <= 0 /\
       1 <= il_capital_efficiency r).
Proof.
  split; [|split].
  - intros pi pc pl pu H. unfold impermanent_loss_v3.
    destruct (Rle_dec pi 0); [reflexivity|].
    destruct (Rle_dec pl 0); [reflexivity|].
    destruct (Rle_dec pu pl); [reflexivity | lra].
  - intros pi pc pl pu Hi Hl Hu Hc. unfold impermanent_loss_v3.
    destruct (Rle_dec pi 0); [lra|]. destruct (Rle_dec pl 0); [lra|].
    destruct (Rle_dec pu pl); [lra|].
    fsimpl. rewrite py_sqrt_neg; [reflexivity|].
    unfold Rdiv. apply Rmult_neg_pos; [lra | apply Rinv_0_lt_compat; lra].
  - intros pi pc pl pu Hi Hl Hu Hc. unfold impermanent_loss_v3.
    destruct (Rle_dec pi 0); [lra|]. destruct (Rle_dec pl 0); [lra|].
    destruct (Rle_dec pu pl); [lra|].
    assert (Hr : 0 <= pc / pi) by (apply div_nonneg; lra).
    assert (Hx : 0 <= pl / pu) by (apply div_nonneg; lra).
    pose proof (hodl_ratio_bounds (pc / pi) Hr) as Hh.
    pose proof (ce_denom_bounds pl pu Hl Hu) as Hd.
    fsimpl. destruct (Rlt_dec 0 (1 - sqrt (pl / pu))); [|lra].
    fsimpl. eexists; split; [reflexivity|]. cbn [il_v2_pct il_v3_pct il_capital_efficiency].
    pose proof (one_over_ge_1 _ Hd) as Hce.
    set (ce := 1 / (1 - sqrt (pl / pu))) in *.
    set (v2 := (2 * sqrt (pc / pi) / (1 + pc / pi) - 1) * 100).
    assert (Hv2 : -100 <= v2 <= 0) by (unfold v2; lra).
    clearbody ce v2.
    assert (Hv3 : -100 <= Rmax (v2 * ce) (-100) <= v2).
    { split; [apply Rmax_r|]. apply Rmax_lub; [|lra].
      assert (0 <= - v2 * (ce - 1)) by (apply Rmult_le_pos; lra). lra. }
    split; [split|split].
    + apply (py_round_ge (-100)). lra.
    + apply py_round_mono. lra.
    + apply (py_round_le 0). lra.
    + apply (py_round_ge 1). lra.
Qed.

Lemma impermanent_loss_v3_bounds_witness :
  impermanent_loss_v3 2000 3000 2000 1000 = FOk (mkILv3 0 0 1 1) /\
  impermanent_loss_v3 2000 (-1) 1000 3000 = FErr ValueError /\
  exists r, impermanent_loss_v3 2000 3000 1000 3000 = FOk r /\
    -100 <= il_v3_pct r <= il_v2_pct r /\ il_v2_pct r <= 0 /\
    1 <= il_capital_efficiency r.
Proof.
  destruct impermanent_loss_v3_bounds as [H1 [H2 H3]].
  split; [apply H1; lra|]. split; [apply H2; lra | apply H3; lra].
Defined.

(** X19: [range_proximity] returns [in_range = False] and zeros for an empty
    range or a non-positive price; otherwise [in_range] holds exactly when
    [range_min <= current_price <= range_max], [position_in_range_pct] lies
    in [0, 100] (0 out of range), and both buffers are nonnegative in
    range. *)
Theorem range_proximity_bounds :
  (forall p lo hi, hi <= lo \/ p <= 0 ->
     range_proximity p lo hi = FOk (mkProximity false 0 0 0)) /\
  (forall p lo hi, lo < hi -> 0 < p ->
     exists r, range_proximity p lo hi = FOk r /\
       (prox_in_range r = true <-> lo <= p <= hi) /\
       0 <= position_in_range_pct r <= 100 /\
       (prox_in_range r = true -> 0 <= downside_buffer_pct r /\ 0 <= upside_buffer_pct r) /\
       (prox_in_range r = false -> position_in_range_pct r = 0)).
Proof.
  split.
  - intros p lo hi H. unfold range_proximity.
    destruct (Rle_dec hi lo); [reflexivity|].
    destruct (Rle_dec p 0); [reflexivity | lra].
  - intros p lo hi Hlh Hp. unfold range_proximity.
    destruct (Rle_dec hi lo); [lra|]. destruct (Rle_dec p 0); [lra|].
    fsimpl. unfold Rleb.
    destruct (Rle_dec lo p) as [H1|H1], (Rle_dec p hi) as [H2|H2]; cbn [andb]; fsimpl;
      eexists; (split; [reflexivity|]); cbn [prox_in_range position_in_range_pct
        downside_buffer_pct upside_buffer_pct].
    + assert (Hq : 0 <= (p - lo) / (hi - lo) * 100 <= 100).
      { split; [apply Rmult_le_pos; [apply div_nonneg|]; lra|].
        apply (Rmult_le_reg_r (/ 100)); [lra|].
        replace ((p - lo) / (hi - lo) * 100 * / 100) with ((p - lo) / (hi - lo)) by (field; lra).
        apply (Rmult_le_reg_r (hi - lo)); [lra|].
        replace ((p - lo) / (hi - lo) * (hi - lo)) with (p - lo) by (field; lra). lra. }
      split; [tauto|]. split; [apply (py_round_between 0 100); exact Hq|].
      split; [|discriminate]. intros _.
      split; apply py_round_nonneg; apply Rmult_le_pos; try lra; apply div_nonneg; lra.
    + split; [split; [discriminate | lra]|].
      rewrite py_round_IZR. split; [lra|]. split; [discriminate|]. reflexivity.
    + split; [split; [discriminate | lra]|].
      rewrite py_round_IZR. split; [lra|]. split; [discriminate|]. reflexivity.
    + split; [split; [discriminate | lra]|].
      rewrite py_round_IZR. split; [lra|]. split; [discriminate|]. reflexivity.
Qed.

Lemma range_proximity_bounds_witness :
  range_proximity 2000 3000 1000 = FOk (mkProximity false 0 0 0) /\
  exists r, range_proximity 2000 1000 3000 = FOk r /\
    (prox_in_range r = true <-> 1000 <= 2000 <= 3000) /\
    0 <= position_in_range_pct r <= 100 /\
    (prox_in_range r = true -> 0 <= downside_buffer_pct r /\ 0 <= upside_buffer_pct r) /\
    (prox_in_range r = false -> position_in_range_pct r = 0).
Proof.
  destruct range_proximity_bounds as [H1 H2].
  split; [apply H1; lra | apply H2; lra].
Defined.



Lemma capital_efficiency_ge_1 (lo hi : R) : 1 <= CapitalEfficiency.capital_efficiency_vs_v2 lo hi.
Proof.
  unfold CapitalEfficiency.capital_efficiency_vs_v2.
  destruct (Rle_dec hi lo); [lra|]. destruct (Rle_dec lo 0); [lra|].
  destruct (Rlt_dec 0 (1 - sqrt (lo / hi))); [|lra].
  apply one_over_ge_1. pose proof (sqrt_pos (lo / hi)). lra.
Qed.

(** Around a midpoint [m], the half-width [w] gives the range
    [m (1 - w), m (1 + w)]. *)
Lemma capital_efficiency_symmetric (m w : R) : 0 < m -> 0 < w < 1 ->
  CapitalEfficiency.capital_efficiency_vs_v2 (m * (1 - w)) (m * (1 + w)) =
  1 / (1 - sqrt ((1 - w) / (1 + w))).
Proof.
  intros Hm Hw. unfold CapitalEfficiency.capital_efficiency_vs_v2.
  destruct (Rle_dec (m * (1 + w)) (m * (1 - w))); [nra|].
  destruct (Rle_dec (m * (1 - w)) 0); [nra|].
  replace (m * (1 - w) / (m * (1 + w))) with ((1 - w) / (1 + w)) by (field; lra).
  pose proof (ce_denom_bounds (1 - w) (1 + w) ltac:(lra) ltac:(lra)).
  destruct (Rlt_dec 0 (1 - sqrt ((1 - w) / (1 + w)))); [reflexivity | lra].
Qed.

Lemma capital_efficiency_width_decreasing (m w1 w2 : R) :
  0 < m -> 0 < w1 -> w1 < w2 -> w2 < 1 ->
  1 < CapitalEfficiency.capital_efficiency_vs_v2 (m * (1 - w2)) (m * (1 + w2)) <
      CapitalEfficiency.capital_efficiency_vs_v2 (m * (1 - w1)) (m * (1 + w1)).
Proof.
  intros Hm H1 H12 H2.
  rewrite !capital_efficiency_symmetric by lra.
  assert (Hq : forall w, 0 < w < 1 -> (1 - w) / (1 + w) = 2 / (1 + w) - 1).
  { intros w Hw. field. lra. }
  assert (Hq12 : (1 - w2) / (1 + w2) < (1 - w1) / (1 + w1)).
  { rewrite !Hq by lra. unfold Rdiv.
    assert (/ (1 + w2) < / (1 + w1)) by (apply Rinv_lt_contravar; nra). lra. }
  assert (Hq2 : 0 < (1 - w2) / (1 + w2)).
  { unfold Rdiv. apply Rmult_lt_0_compat; [lra | apply Rinv_0_lt_compat; lra]. }
  pose proof (ce_denom_bounds (1 - w1) (1 + w1) ltac:(lra) ltac:(lra)) as [Hd1 _].
  pose proof (sqrt_lt_1_alt ((1 - w2) / (1 + w2)) ((1 - w1) / (1 + w1)) ltac:(lra)) as Hs.
  pose proof (sqrt_lt_R0 _ Hq2) as Hs2.
  split.
  - unfold Rdiv. rewrite Rmult_1_l, <- Rinv_1 at 1.
    apply Rinv_lt_contravar; nra.
  - unfold Rdiv. rewrite !Rmult_1_l. apply Rinv_lt_contravar; nra.
Qed.

(** X20: Around a fixed positive midpoint, a narrower symmetric range
    [m (1 - w), m (1 + w)] has a strictly larger
    [capital_efficiency_vs_v2] than a wider one, for [0 < w < 1]. *)
Theorem capital_efficiency_narrower_is_larger (m w1 w2 : R) :
  0 < m -> 0 < w1 -> w1 < w2 -> w2 < 1 ->
  CapitalEfficiency.capital_efficiency_vs_v2 (m * (1 - w2)) (m * (1 + w2)) <
  CapitalEfficiency.capital_efficiency_vs_v2 (m * (1 - w1)) (m * (1 + w1)).
Proof. intros. apply capital_efficiency_width_decreasing; assumption. Qed.

Lemma capital_efficiency_narrower_is_larger_witness :
  CapitalEfficiency.capital_efficiency_vs_v2 (2000 * (1 - 1 / 2)) (2000 * (1 + 1 / 2)) <
  CapitalEfficiency.capital_efficiency_vs_v2 (2000 * (1 - 1 / 10)) (2000 * (1 + 1 / 10)).
Proof. apply capital_efficiency_narrower_is_larger; lra. Defined.

Lemma strategy_widths (v : R) : 0 < v ->
  0 < Rmin 20 (v * 100 * (4 / 10)) < Rmin 50 (v * 100 * 1) /\
  Rmin 50 (v * 100 * 1) < Rmin 80 (v * 100 * (16 / 10)) /\
  Rmin 80 (v * 100 * (16 / 10)) <= 80.
Proof. intros Hv. unfold Rmin. repeat destruct Rle_dec; lra. Qed.

(** X21: For a positive price and volatility, [generate_position_strategies]
    returns the conservative, moderate and aggressive strategies in that
    order, each range satisfies [0 < lower_price < current_price <
    upper_price], and the capital efficiencies are strictly increasing from
    conservative (above 1) to aggressive. *)
Theorem generate_position_strategies_ranges (p v apr vol fee tvl pv cce : R) :
  0 < p -> 0 < v ->
  exists c m a,
    generate_position_strategies p (Some v) apr vol fee tvl pv cce = [c; m; a] /\
    map strategy_name [c; m; a] = ["conservative"; "moderate"; "aggressive"] /\
    Forall (fun s => 0 < lower_price s < p /\ p < upper_price s) [c; m; a] /\
    1 < strategy_capital_efficiency c /\
    strategy_capital_efficiency c < strategy_capital_efficiency m /\
    strategy_capital_efficiency m < strategy_capital_efficiency a.
Proof.
  intros Hp Hv. do 3 eexists. split; [reflexivity|]. split; [reflexivity|].
  pose proof (strategy_widths v Hv) as [[Ha Ham] [Hmc Hc]].
  set (wc := Rmin 80 (v * 100 * (16 / 10))) in *.
  set (wm := Rmin 50 (v * 100 * 1)) in *.
  set (wa := Rmin 20 (v * 100 * (4 / 10))) in *.
  cbn [strategy_metrics lower_price upper_price strategy_capital_efficiency fst snd].
  split.
  - repeat (apply Forall_cons; [cbn [strategy_metrics lower_price upper_price]; split; [split|]; nra|]).
    apply Forall_nil.
  - pose proof (capital_efficiency_width_decreasing p (wm / 100) (wc / 100) Hp
                  ltac:(lra) ltac:(lra) ltac:(lra)).
    pose proof (capital_efficiency_width_decreasing p (wa / 100) (wm / 100) Hp
                  ltac:(lra) ltac:(lra) ltac:(lra)).
    lra.
Qed.

Lemma generate_position_strategies_ranges_witness :
  exists c m a,
    generate_position_strategies 2000 (Some (1 / 2)) 0 0 0 0 0 0 = [c; m; a] /\
    map strategy_name [c; m; a] = ["conservative"; "moderate"; "aggressive"] /\
    Forall (fun s => 0 < lower_price s < 2000 /\ 2000 < upper_price s) [c; m; a] /\
    1 < strategy_capital_efficiency c /\
    strategy_capital_efficiency c < strategy_capital_efficiency m /\
    strategy_capital_efficiency m < strategy_capital_efficiency a.
Proof. apply generate_position_strategies_ranges; lra. Defined.

(** X22: With [pool_apr > 0] and no [current_ce] (at or below 0), every
    strategy of [generate_position_strategies] gets the same
    [apr_estimate], [pool_apr / 100], whatever its capital efficiency. *)
Theorem generate_position_strategies_same_apr (p apr vol fee tvl pv cce : R) (v : option R) :
  0 < apr -> cce <= 0 ->
  Forall (fun s => apr_estimate s = apr / 100)
    (generate_position_strategies p v apr vol fee tvl pv cce).
Proof.
  intros Ha Hc. unfold generate_position_strategies. cbn [map fst snd].
  assert (H : forall n w inv, apr_estimate (strategy_metrics n w p inv apr cce) = apr / 100).
  { intros n w inv. unfold strategy_metrics. cbn [apr_estimate].
    destruct (Rlt_dec 0 apr); [|lra]. destruct (Rlt_dec 0 cce); [lra|].
    set (ce := CapitalEfficiency.capital_efficiency_vs_v2 _ _).
    assert (Hce : 1 <= ce) by apply capital_efficiency_ge_1.
    rewrite (Rmax_left ce 1), (Rmax_left ce 1) by lra. field. lra. }
  repeat (apply Forall_cons; [apply H|]). apply Forall_nil.
Qed.

Lemma generate_position_strategies_same_apr_witness :
  Forall (fun s => apr_estimate s = 50 / 100)
    (generate_position_strategies 2000 None 50 0 0 0 0 0).
Proof. apply generate_position_strategies_same_apr; lra. Defined.

(** X23: For a positive price and a volatility above 0.4 (the default 0.5
    included), [_classify_current_strategy] classifies the range of the
    generated "moderate" strategy as "conservative". *)
Theorem classify_generated_moderate (p apr vol fee tvl pv cce : R) (v : option R) :
  0 < p -> (match v with Some x => 2 / 5 < x | None => True end) ->
  exists s,
    nth_error (generate_position_strategies p v apr vol fee tvl pv cce) 1 = Some s /\
    strategy_name s = "moderate" /\
    classify_current_strategy (lower_price s) (upper_price s) p = "conservative".
Proof.
  intros Hp Hv. eexists. split; [reflexivity|]. split; [reflexivity|].
  set (x := match v with Some x => x | None => 1 / 2 end).
  assert (Hx : 2 / 5 < x) by (unfold x; destruct v; lra).
  cbn [strategy_metrics lower_price upper_price snd].
  change (match v with Some v0 => v0 | None => 1 / 2 end) with x.
  set (w := Rmin 50 (x * 100 * 1)).
  assert (Hw : 40 < w <= 50) by (unfold w, Rmin; destruct Rle_dec; lra).
  clearbody w.
  unfold classify_current_strategy.
  destruct (Rle_dec (p * (1 - w / 100)) 0); [nra|].
  destruct (Rle_dec (p * (1 + w / 100)) 0); [nra|].
  destruct (Rle_dec p 0); [lra|].
  replace ((p * (1 + w / 100) - p * (1 - w / 100)) / p * 100) with (2 * w) by (field; lra).
  destruct (Rle_dec 80 (2 * w)); [reflexivity | lra].
Qed.

Lemma classify_generated_moderate_witness :
  exists s,
    nth_error (generate_position_strategies 2000 None 0 0 0 0 0 0) 1 = Some s /\
    strategy_name s = "moderate" /\
    classify_current_strategy (lower_price s) (upper_price s) 2000 = "conservative".
Proof. apply classify_generated_moderate; [lra | exact I]. Defined.


Lemma pow10_overflow : (10 ^ 308 < FLOAT_INT_OVERFLOW <= 10 ^ 309)%Z.
Proof.
  unfold FLOAT_INT_OVERFLOW. split.
  - apply Z.ltb_lt. vm_compute. reflexivity.
  - apply Z.leb_le. vm_compute. reflexivity.
Qed.

Lemma float_div_pow10_ok (x : R) (d : Z) : (0 <= d <= 308)%Z ->
  float_div_pow10 x d = FOk (x / IZR (10 ^ d)) /\ 0 < IZR (10 ^ d).
Proof.
  intros Hd. unfold float_div_pow10.
  destruct (Z.leb_spec 0 d); [|lia]. destruct (Z.leb_spec 309 d); [lia|].
  split; [reflexivity|]. apply IZR_lt. apply Z.pow_pos_nonneg; lia.
Qed.

Lemma float_div_pow10_overflow (x : R) (d : Z) : (309 <= d)%Z ->
  float_div_pow10 x d = FErr OverflowError.
Proof.
  intros Hd. unfold float_div_pow10.
  destruct (Z.leb_spec 0 d); [|lia]. destruct (Z.leb_spec 309 d); [reflexivity | lia].
Qed.

Lemma zero_div_pow10_ok (d : Z) : (0 <= d)%Z -> zero_div_pow10 d = FOk 0.
Proof. intros Hd. unfold zero_div_pow10. destruct (Z.leb_spec 0 d); [reflexivity | lia]. Qed.

Lemma sqrt_tick_price_pos (t : Z) : 0 < Rpower TICK_BASE (IZR t / 2).
Proof. apply exp_pos. Qed.

Lemma sqrt_tick_price_lt (t1 t2 : Z) : (t1 < t2)%Z ->
  Rpower TICK_BASE (IZR t1 / 2) < Rpower TICK_BASE (IZR t2 / 2).
Proof.
  intros H. apply Rpower_lt; [apply TICK_BASE_gt_1|].
  apply IZR_lt in H. lra.
Qed.

Lemma inv_lt (a b : R) : 0 < a -> a < b -> 1 / b < 1 / a.
Proof.
  intros Ha Hab. unfold Rdiv. rewrite !Rmult_1_l. apply Rinv_lt_contravar; nra.
Qed.

Lemma inv_le (a b : R) : 0 < a -> a <= b -> 1 / b <= 1 / a.
Proof.
  intros Ha Hab. destruct (Req_dec a b) as [->|]; [lra|]. apply Rlt_le, inv_lt; lra.
Qed.

Lemma div_pos (a d : R) : 0 < a -> 0 < d -> 0 < a / d.
Proof. intros. unfold Rdiv. apply Rmult_lt_0_compat; [lra | apply Rinv_0_lt_compat; lra]. Qed.

Lemma ln_TICK_BASE_lt : ln TICK_BASE < / 10000.
Proof.
  rewrite <- (ln_exp (/ 10000)).
  apply ln_increasing; [unfold TICK_BASE; lra|].
  pose proof (exp_ineq1 (/ 10000) ltac:(lra)). unfold TICK_BASE. lra.
Qed.

Lemma exp_45_bound : exp 45 <= IZR (3 ^ 45).
Proof.
  assert (H3 : 1 <= ln 3).
  { replace 1 with (ln (exp 1)) at 1 by apply ln_exp.
    pose proof exp_le_3. destruct (Req_dec (exp 1) 3) as [->|Hne]; [lra|].
    apply Rlt_le, ln_increasing; [apply exp_pos | lra]. }
  replace (IZR (3 ^ 45)) with (3 ^ 45) by (rewrite pow_IZR; reflexivity).
  rewrite <- (exp_ln (3 ^ 45)) by (apply pow_lt; lra).
  rewrite ln_pow by lra.
  assert (H45 : INR 45 = 45) by (rewrite INR_IZR_INZ; reflexivity).
  rewrite H45.
  assert (Hle : 45 <= 45 * ln 3) by lra.
  destruct (Rle_lt_or_eq_dec _ _ Hle) as [Hlt | Heq];
    [apply Rlt_le, exp_increasing, Hlt | rewrite <- Heq; apply Rle_refl].
Qed.

(** For a tick of the int24 range, [1.0001 ** (tick / 2)] is a normal
    double: neither [OverflowError] nor [0.0]. *)
Lemma tick_pow_bounds (t : Z) : (MIN_TICK <= t <= MAX_TICK)%Z ->
  FLOAT_UNDERFLOW < Rpower TICK_BASE (IZR t / 2) < IZR FLOAT_INT_OVERFLOW.
Proof.
  intros Ht. unfold Rpower.
  pose proof ln_TICK_BASE_pos. pose proof ln_TICK_BASE_lt.
  assert (Hr : IZR MIN_TICK <= IZR t <= IZR MAX_TICK) by (split; apply IZR_le; lia).
  unfold MIN_TICK, MAX_TICK in Hr.
  assert (Ha : -45 < IZR t / 2 * ln TICK_BASE < 45) by (split; nra).
  pose proof exp_45_bound as H45.
  assert (HT : IZR (3 ^ 45) < IZR FLOAT_INT_OVERFLOW) by (apply IZR_lt; vm_compute; reflexivity).
  assert (HU : IZR (3 ^ 45) < IZR (2 ^ 1075)) by (apply IZR_lt; vm_compute; reflexivity).
  assert (H3 : 0 < IZR (3 ^ 45)) by (apply IZR_lt; vm_compute; reflexivity).
  pose proof (exp_pos 45).
  split.
  - unfold FLOAT_UNDERFLOW.
    apply Rlt_trans with (/ IZR (3 ^ 45)); [apply Rinv_lt_contravar; nra|].
    apply Rle_lt_trans with (/ exp 45); [apply Rinv_le_contravar; lra|].
    rewrite <- exp_Ropp. apply exp_increasing. lra.
  - apply Rlt_le_trans with (exp 45); [apply exp_increasing; lra | lra].
Qed.

Lemma py_pow_tick_base_ok (t : Z) : (MIN_TICK <= t <= MAX_TICK)%Z ->
  py_pow_tick_base (IZR t / 2) = FOk (Rpower TICK_BASE (IZR t / 2)).
Proof.
  intros Ht. destruct (tick_pow_bounds t Ht) as [Hlo Hhi].
  unfold py_pow_tick_base. cbv zeta.
  destruct (Rle_dec _ _); [lra|]. destruct (Rle_dec _ _); [lra | reflexivity].
Qed.

Lemma py_int_true_div_ok (a b : Z) : (Z.abs a < FLOAT_INT_OVERFLOW * b)%Z ->
  py_int_true_div a b = FOk (IZR a / IZR b).
Proof.
  intros H. unfold py_int_true_div.
  destruct (Z.leb_spec (FLOAT_INT_OVERFLOW * b) (Z.abs a)); [lia | reflexivity].
Qed.

Lemma py_int_true_div_tick (t : Z) : (MIN_TICK <= t <= MAX_TICK)%Z ->
  py_int_true_div t 2 = FOk (IZR t / 2).
Proof.
  intros Ht. apply py_int_true_div_ok.
  assert (H : (887272 < FLOAT_INT_OVERFLOW * 2)%Z) by (apply Z.ltb_lt; vm_compute; reflexivity).
  unfold MIN_TICK, MAX_TICK in Ht. lia.
Qed.

Lemma py_int_float_mul_ok (n : Z) (x : R) : (Z.abs n < FLOAT_INT_OVERFLOW)%Z ->
  py_int_float_mul n x = FOk (IZR n * x).
Proof.
  intros H. unfold py_int_float_mul.
  destruct (Z.leb_spec FLOAT_INT_OVERFLOW (Z.abs n)); [lia | reflexivity].
Qed.

(** A uint128 liquidity and a uint160 [sqrtPriceX96] convert to floats. *)
Lemma uint_liquidity_fits (liq : Z) : (0 <= liq < 2 ^ 128)%Z ->
  (Z.abs liq < FLOAT_INT_OVERFLOW)%Z.
Proof.
  intros H. assert (HT : (2 ^ 128 < FLOAT_INT_OVERFLOW)%Z) by (apply Z.ltb_lt; vm_compute; reflexivity).
  lia.
Qed.

Lemma uint_sqrt_price_fits (s : Z) : (0 <= s < 2 ^ 160)%Z ->
  (Z.abs s < FLOAT_INT_OVERFLOW * Q96)%Z.
Proof.
  intros H. assert (HT : (2 ^ 160 < FLOAT_INT_OVERFLOW * Q96)%Z)
    by (apply Z.ltb_lt; vm_compute; reflexivity).
  lia.
Qed.

(** The steps before the branch: [sqrtP], [sqrtPl] and [sqrtPu] are the
    real values. *)
Ltac token_amounts_prefix Hs Htl Htu :=
  rewrite (py_int_true_div_ok _ _ (uint_sqrt_price_fits _ Hs)); cbn [fbind];
  rewrite (py_int_true_div_tick _ Htl); cbn [fbind];
  rewrite (py_pow_tick_base_ok _ Htl); cbn [fbind];
  rewrite (py_int_true_div_tick _ Htu); cbn [fbind];
  rewrite (py_pow_tick_base_ok _ Htu); cbn [fbind].

Lemma Q96_pos : 0 < IZR Q96.
Proof. apply IZR_lt. reflexivity. Qed.

(** X24: [_compute_token_amounts] returns zeros for zero liquidity or a zero
    [sqrtPriceX96]; for a positive uint128 liquidity, a nonzero uint160
    [sqrtPriceX96], int24 ticks with [tickLower < tickUpper] and decimals
    in [0, 308], a position below its range holds only token 0 (positive)
    and one above its range only token 1 (positive). *)
Theorem compute_token_amounts_sides :
  (forall liq s ct tl tu d0 d1, (liq = 0 \/ s = 0)%Z ->
     compute_token_amounts liq s ct tl tu d0 d1 = FOk (mkAmounts 0 0)) /\
  (forall liq s ct tl tu d0 d1,
     (0 < liq < 2 ^ 128)%Z -> (0 < s < 2 ^ 160)%Z ->
     (MIN_TICK <= tl < tu)%Z -> (tu <= MAX_TICK)%Z ->
     (0 <= d0 <= 308)%Z -> (0 <= d1 <= 308)%Z -> (ct < tl)%Z ->
     exists a, compute_token_amounts liq s ct tl tu d0 d1 = FOk a /\
               0 < amount0 a /\ amount1 a = 0) /\
  (forall liq s ct tl tu d0 d1,
     (0 < liq < 2 ^ 128)%Z -> (0 < s < 2 ^ 160)%Z ->
     (MIN_TICK <= tl < tu)%Z -> (tu <= MAX_TICK)%Z ->
     (0 <= d0 <= 308)%Z -> (0 <= d1 <= 308)%Z -> (tu <= ct)%Z ->
     exists a, compute_token_amounts liq s ct tl tu d0 d1 = FOk a /\
               amount0 a = 0 /\ 0 < amount1 a).
Proof.
  split; [|split].
  - intros liq s ct tl tu d0 d1 H. unfold compute_token_amounts.
    destruct H as [-> | ->]; [reflexivity|]. rewrite orb_true_r. reflexivity.
  - intros liq s ct tl tu d0 d1 Hl Hs Ht Htu Hd0 Hd1 Hc.
    assert (Htl' : (MIN_TICK <= tl <= MAX_TICK)%Z) by lia.
    assert (Htu' : (MIN_TICK <= tu <= MAX_TICK)%Z) by lia.
    assert (Hs' : (0 <= s < 2 ^ 160)%Z) by lia.
    unfold compute_token_amounts.
    replace ((liq =? 0) || (s =? 0))%Z with false by (symmetry; apply orb_false_iff; split; apply Z.eqb_neq; lia).
    token_amounts_prefix Hs' Htl' Htu'.
    destruct (Z.ltb_spec ct tl); [|lia].
    pose proof (sqrt_tick_price_pos tl). pose proof (sqrt_tick_price_pos tu).
    rewrite !py_div_nonzero by lra. cbn [fbind].
    rewrite (py_int_float_mul_ok _ _ (uint_liquidity_fits liq ltac:(lia))). cbn [fbind].
    destruct (float_div_pow10_ok (IZR liq * (1 / Rpower TICK_BASE (IZR tl / 2) -
                                   1 / Rpower TICK_BASE (IZR tu / 2))) d0 Hd0) as [-> Hp].
    cbn [fbind]. rewrite zero_div_pow10_ok by lia. cbn [fbind].
    eexists; split; [reflexivity|]. cbn [amount0 amount1]. split; [|reflexivity].
    apply div_pos; [|exact Hp]. apply Rmult_lt_0_compat; [apply IZR_lt; lia|].
    pose proof (inv_lt _ _ (sqrt_tick_price_pos tl) (sqrt_tick_price_lt tl tu ltac:(lia))). lra.
  - intros liq s ct tl tu d0 d1 Hl Hs Ht Htu Hd0 Hd1 Hc.
    assert (Htl' : (MIN_TICK <= tl <= MAX_TICK)%Z) by lia.
    assert (Htu' : (MIN_TICK <= tu <= MAX_TICK)%Z) by lia.
    assert (Hs' : (0 <= s < 2 ^ 160)%Z) by lia.
    unfold compute_token_amounts.
    replace ((liq =? 0) || (s =? 0))%Z with false by (symmetry; apply orb_false_iff; split; apply Z.eqb_neq; lia).
    token_amounts_prefix Hs' Htl' Htu'.
    destruct (Z.ltb_spec ct tl); [lia|]. destruct (Z.geb_spec ct tu); [|lia].
    rewrite (py_int_float_mul_ok _ _ (uint_liquidity_fits liq ltac:(lia))). cbn [fbind].
    rewrite zero_div_pow10_ok by lia. cbn [fbind].
    destruct (float_div_pow10_ok (IZR liq * (Rpower TICK_BASE (IZR tu / 2) -
                                   Rpower TICK_BASE (IZR tl / 2))) d1 Hd1) as [-> Hp].
    cbn [fbind]. eexists; split; [reflexivity|]. cbn [amount0 amount1]. split; [reflexivity|].
    apply div_pos; [|exact Hp]. apply Rmult_lt_0_compat; [apply IZR_lt; lia|].
    pose proof (sqrt_tick_price_lt tl tu ltac:(lia)). lra.
Qed.

Lemma compute_token_amounts_sides_witness :
  compute_token_amounts 0 Q96 0 (-10) 10 18 6 = FOk (mkAmounts 0 0) /\
  (exists a, compute_token_amounts (10 ^ 18) Q96 (-20) (-10) 10 18 6 = FOk a /\
             0 < amount0 a /\ amount1 a = 0) /\
  (exists a, compute_token_amounts (10 ^ 18) Q96 20 (-10) 10 18 6 = FOk a /\
             amount0 a = 0 /\ 0 < amount1 a).
Proof.
  destruct compute_token_amounts_sides as [H1 [H2 H3]].
  split; [apply H1; lia|].
  split; [apply H2 | apply H3]; unfold Q96, MIN_TICK, MAX_TICK; lia.
Defined.

(** X25: In range, for a uint128 liquidity, a uint160 [sqrtPriceX96] whose
    square-root price lies between those of the two int24 ticks, and
    decimals in [0, 308], [_compute_token_amounts] returns nonnegative
    amounts of both tokens. *)
Theorem compute_token_amounts_in_range_nonneg (liq s ct tl tu d0 d1 : Z) :
  (0 <= liq < 2 ^ 128)%Z -> (0 <= s < 2 ^ 160)%Z ->
  (MIN_TICK <= tl)%Z -> (tl <= ct < tu)%Z -> (tu <= MAX_TICK)%Z ->
  (0 <= d0 <= 308)%Z -> (0 <= d1 <= 308)%Z ->
  Rpower TICK_BASE (IZR tl / 2) <= IZR s / IZR Q96 <= Rpower TICK_BASE (IZR tu / 2) ->
  exists a, compute_token_amounts liq s ct tl tu d0 d1 = FOk a /\
            0 <= amount0 a /\ 0 <= amount1 a.
Proof.
  intros Hl Hs Htl Hc Htu Hd0 Hd1 [Hsl Hsu]. unfold compute_token_amounts.
  destruct ((liq =? 0) || (s =? 0))%Z.
  { eexists; split; [reflexivity|]. cbn. lra. }
  assert (Htl' : (MIN_TICK <= tl <= MAX_TICK)%Z) by lia.
  assert (Htu' : (MIN_TICK <= tu <= MAX_TICK)%Z) by lia.
  token_amounts_prefix Hs Htl' Htu'.
  destruct (Z.ltb_spec ct tl); [lia|]. destruct (Z.geb_spec ct tu); [lia|].
  pose proof (sqrt_tick_price_pos tl) as Hpl.
  set (sp := IZR s / IZR Q96) in *.
  set (spl := Rpower TICK_BASE (IZR tl / 2)) in *.
  set (spu := Rpower TICK_BASE (IZR tu / 2)) in *.
  rewrite !py_div_nonzero by lra. cbn [fbind].
  pose proof (uint_liquidity_fits liq Hl) as Hfit.
  rewrite !(py_int_float_mul_ok _ _ Hfit). cbn [fbind].
  destruct (float_div_pow10_ok (IZR liq * (1 / sp - 1 / spu)) d0 Hd0) as [-> Hp0].
  cbn [fbind].
  destruct (float_div_pow10_ok (IZR liq * (sp - spl)) d1 Hd1) as [-> Hp1].
  cbn [fbind]. eexists; split; [reflexivity|]. cbn [amount0 amount1].
  assert (Hl' : 0 <= IZR liq) by (apply IZR_le; lia).
  pose proof (inv_le sp spu ltac:(lra) Hsu).
  split; apply div_nonneg; try lra; apply Rmult_le_pos; lra.
Qed.

Lemma compute_token_amounts_in_range_nonneg_witness :
  exists a, compute_token_amounts (10 ^ 18) Q96 0 (-2) 2 18 6 = FOk a /\
            0 <= amount0 a /\ 0 <= amount1 a.
Proof.
  apply compute_token_amounts_in_range_nonneg; try (unfold Q96, MIN_TICK, MAX_TICK; lia).
  assert (Hq : IZR Q96 / IZR Q96 = 1).
  { field. apply not_0_IZR. unfold Q96. lia. }
  rewrite Hq, <- (Rpower_O TICK_BASE) by (pose proof TICK_BASE_gt_1; lra).
  split; apply Rlt_le, Rpower_lt; try apply TICK_BASE_gt_1; lra.
Defined.

(** X26: for a positive uint128 liquidity, a nonzero uint160
    [sqrtPriceX96] and int24 ticks, [_compute_token_amounts] raises
    [OverflowError] when a float amount is divided by [10 ** decimals]
    with [decimals >= 309] (up to [10 ^ 6], which Python builds without
    trouble): for token 0 whenever [current_tick < tickUpper], for token 1
    whenever [tickLower <= current_tick] (with [decimals0] in
    [0, 10 ^ 6]). *)
Theorem compute_token_amounts_overflow :
  (forall liq s ct tl tu d0 d1,
     (0 < liq < 2 ^ 128)%Z -> (0 < s < 2 ^ 160)%Z ->
     (MIN_TICK <= tl <= MAX_TICK)%Z -> (MIN_TICK <= tu <= MAX_TICK)%Z ->
     (ct < tu)%Z -> (309 <= d0 <= 10 ^ 6)%Z ->
     compute_token_amounts liq s ct tl tu d0 d1 = FErr OverflowError) /\
  (forall liq s ct tl tu d0 d1,
     (0 < liq < 2 ^ 128)%Z -> (0 < s < 2 ^ 160)%Z ->
     (MIN_TICK <= tl <= MAX_TICK)%Z -> (MIN_TICK <= tu <= MAX_TICK)%Z ->
     (tl <= ct)%Z -> (0 <= d0 <= 10 ^ 6)%Z -> (309 <= d1 <= 10 ^ 6)%Z ->
     compute_token_amounts liq s ct tl tu d0 d1 = FErr OverflowError).
Proof.
  split.
  - intros liq s ct tl tu d0 d1 Hl Hs Htl Htu Hc Hd.
    assert (Hs' : (0 <= s < 2 ^ 160)%Z) by lia.
    pose proof (uint_liquidity_fits liq ltac:(lia)) as Hfit.
    assert (Hsp : 0 < IZR s / IZR Q96) by (apply div_pos; [apply IZR_lt; lia | exact Q96_pos]).
    pose proof (sqrt_tick_price_pos tl). pose proof (sqrt_tick_price_pos tu).
    unfold compute_token_amounts.
    replace ((liq =? 0) || (s =? 0))%Z with false by (symmetry; apply orb_false_iff; split; apply Z.eqb_neq; lia).
    token_amounts_prefix Hs' Htl Htu.
    rewrite !py_div_nonzero by lra. cbn [fbind].
    rewrite !(py_int_float_mul_ok _ _ Hfit). cbn [fbind].
    destruct (Z.ltb_spec ct tl).
    + cbn [fbind]. rewrite float_div_pow10_overflow by lia. reflexivity.
    + destruct (Z.geb_spec ct tu); [lia|].
      cbn [fbind]. rewrite float_div_pow10_overflow by lia. reflexivity.
  - intros liq s ct tl tu d0 d1 Hl Hs Htl Htu Hc Hd0 Hd1.
    assert (Hs' : (0 <= s < 2 ^ 160)%Z) by lia.
    pose proof (uint_liquidity_fits liq ltac:(lia)) as Hfit.
    assert (Hsp : 0 < IZR s / IZR Q96) by (apply div_pos; [apply IZR_lt; lia | exact Q96_pos]).
    pose proof (sqrt_tick_price_pos tl). pose proof (sqrt_tick_price_pos tu).
    unfold compute_token_amounts.
    replace ((liq =? 0) || (s =? 0))%Z with false by (symmetry; apply orb_false_iff; split; apply Z.eqb_neq; lia).
    token_amounts_prefix Hs' Htl Htu.
    rewrite !py_div_nonzero by lra. cbn [fbind].
    rewrite !(py_int_float_mul_ok _ _ Hfit). cbn [fbind].
    destruct (Z.ltb_spec ct tl); [lia|].
    destruct (Z.geb_spec ct tu).
    + rewrite zero_div_pow10_ok by lia. cbn [fbind].
      rewrite float_div_pow10_overflow by lia. reflexivity.
    + destruct (Z.le_gt_cases 309 d0).
      * rewrite float_div_pow10_overflow by lia. reflexivity.
      * destruct (float_div_pow10_ok (IZR liq * (1 / (IZR s / IZR Q96) -
              1 / Rpower TICK_BASE (IZR tu / 2))) d0 ltac:(lia)) as [-> _].
        cbn [fbind]. rewrite float_div_pow10_overflow by lia. reflexivity.
Qed.

Lemma compute_token_amounts_overflow_witness :
  compute_token_amounts (10 ^ 18) Q96 0 (-10) 10 400 6 = FErr OverflowError /\
  compute_token_amounts (10 ^ 18) Q96 20 (-10) 10 18 400 = FErr OverflowError.
Proof.
  destruct compute_token_amounts_overflow as [H1 H2].
  split; [apply H1 | apply H2]; unfold Q96, MIN_TICK, MAX_TICK; lia.
Defined.

End DefiMathProofs.
